(** * A shallow embedding of the ATtiny wavetable VCO firmware

    Source: [wavetables-attiny-finetune.ino].  The firmware has two entry
    points besides [setup]: the control loop [loop], which polls the analog
    inputs and publishes the oscillator parameters, and the timer interrupt
    service routine [ISR(TIMER0_COMPA_vect)], which advances the phase
    accumulator and writes one sample to the PWM compare register [OCR1A].

    Globals are the fields of one record; every C integer is a [Z] with its
    wrap-around written out ([to_uint8], [to_uint16]).  [int] is 16 bits wide
    on the AVR, so [uint16_t] operands are not promoted to a wider type. *)

From Stdlib Require Import ZArith Lia List.
From stdpp Require Import base tactics option list relations.

Local Open Scope Z_scope.

(** ** Fixed-width integers *)

Definition to_uint8 (x : Z) : Z := x mod 256.
Definition to_uint16 (x : Z) : Z := x mod 65536.

(** ** Preprocessor constants *)

Definition WAVETABLE_SINE : Z := 0.
Definition WAVETABLE_TRIANGLE : Z := 1.
Definition WAVETABLE_SAW : Z := 2.
Definition WAVETABLE_SQUARE : Z := 3.
Definition WAVETABLE_PULSE : Z := 4.
Definition WAVETABLE_NOISE : Z := 5.

Definition BUFF_LENGTH : Z := 4.
Definition BUFF_SHIFT : Z := 2.

Definition HIGH : Z := 1.
Definition LOW : Z := 0.

(** The three analog input pins (A2, A3 and A1 on the ATtiny). *)
Inductive Pin : Set := CV_INPUT | WAVE_INPUT | OP_INPUT.

(** ** Global variables

    The volatile globals, the non-volatile control-loop globals and the one
    peripheral register the interrupt writes.  [syncOffset], [pitch_offset]
    and [a1_level] are declared by the source and never used. *)

Record State : Set := mkState {
  syncPhaseAcc : Z;        (* volatile uint16_t *)
  syncPhaseInc : Z;        (* volatile uint16_t *)
  baseFreq : Z;            (* volatile uint16_t *)
  syncOffset : Z;          (* volatile uint16_t *)
  finetune : Z;            (* volatile uint16_t *)
  current_wavetable : Z;   (* volatile uint8_t *)
  pitch_offset : Z;        (* volatile uint8_t *)
  phase_offset : Z;        (* volatile uint8_t *)
  range_high : Z;          (* volatile uint8_t *)
  acc : Z;                 (* uint16_t *)
  a1_level : Z;            (* uint16_t *)
  buffered_vals : list Z;  (* uint16_t [BUFF_LENGTH] *)
  buff_step : Z;           (* uint16_t *)
  OCR1A : Z                (* 8-bit PWM compare register *)
}.

(** Assignments to one global. *)

Definition set_syncPhaseAcc (v : Z) (s : State) : State :=
  mkState v (syncPhaseInc s) (baseFreq s) (syncOffset s) (finetune s)
          (current_wavetable s) (pitch_offset s) (phase_offset s) (range_high s)
          (acc s) (a1_level s) (buffered_vals s) (buff_step s) (OCR1A s).

Definition set_syncPhaseInc (v : Z) (s : State) : State :=
  mkState (syncPhaseAcc s) v (baseFreq s) (syncOffset s) (finetune s)
          (current_wavetable s) (pitch_offset s) (phase_offset s) (range_high s)
          (acc s) (a1_level s) (buffered_vals s) (buff_step s) (OCR1A s).

Definition set_baseFreq (v : Z) (s : State) : State :=
  mkState (syncPhaseAcc s) (syncPhaseInc s) v (syncOffset s) (finetune s)
          (current_wavetable s) (pitch_offset s) (phase_offset s) (range_high s)
          (acc s) (a1_level s) (buffered_vals s) (buff_step s) (OCR1A s).

Definition set_finetune (v : Z) (s : State) : State :=
  mkState (syncPhaseAcc s) (syncPhaseInc s) (baseFreq s) (syncOffset s) v
          (current_wavetable s) (pitch_offset s) (phase_offset s) (range_high s)
          (acc s) (a1_level s) (buffered_vals s) (buff_step s) (OCR1A s).

Definition set_current_wavetable (v : Z) (s : State) : State :=
  mkState (syncPhaseAcc s) (syncPhaseInc s) (baseFreq s) (syncOffset s) (finetune s)
          v (pitch_offset s) (phase_offset s) (range_high s)
          (acc s) (a1_level s) (buffered_vals s) (buff_step s) (OCR1A s).

Definition set_range_high (v : Z) (s : State) : State :=
  mkState (syncPhaseAcc s) (syncPhaseInc s) (baseFreq s) (syncOffset s) (finetune s)
          (current_wavetable s) (pitch_offset s) (phase_offset s) v
          (acc s) (a1_level s) (buffered_vals s) (buff_step s) (OCR1A s).

Definition set_acc (v : Z) (s : State) : State :=
  mkState (syncPhaseAcc s) (syncPhaseInc s) (baseFreq s) (syncOffset s) (finetune s)
          (current_wavetable s) (pitch_offset s) (phase_offset s) (range_high s)
          v (a1_level s) (buffered_vals s) (buff_step s) (OCR1A s).

Definition set_buffered_vals (v : list Z) (s : State) : State :=
  mkState (syncPhaseAcc s) (syncPhaseInc s) (baseFreq s) (syncOffset s) (finetune s)
          (current_wavetable s) (pitch_offset s) (phase_offset s) (range_high s)
          (acc s) (a1_level s) v (buff_step s) (OCR1A s).

Definition set_buff_step (v : Z) (s : State) : State :=
  mkState (syncPhaseAcc s) (syncPhaseInc s) (baseFreq s) (syncOffset s) (finetune s)
          (current_wavetable s) (pitch_offset s) (phase_offset s) (range_high s)
          (acc s) (a1_level s) (buffered_vals s) v (OCR1A s).

Definition set_OCR1A (v : Z) (s : State) : State :=
  mkState (syncPhaseAcc s) (syncPhaseInc s) (baseFreq s) (syncOffset s) (finetune s)
          (current_wavetable s) (pitch_offset s) (phase_offset s) (range_high s)
          (acc s) (a1_level s) (buffered_vals s) (buff_step s) v.

(** ** The environment of one poll

    [analogRead] returns a 10-bit conversion as an [int]; [digitalRead]
    returns [HIGH] or [LOW]. *)

Record Env : Type := mkEnv {
  analogRead : Pin -> Z;
  digitalRead : Z -> Z
}.

(** ** Static storage before [setup]: every global is zero. *)

Definition power_on : State :=
  mkState 0 0 0 0 0 0 0 0 0 0 0 (replicate (Z.to_nat BUFF_LENGTH) 0) 0 0.

(** [memset(p, 0, n)] on an array of [uint16_t]: [n] counts bytes, so the
    first [n / 2] two-byte elements are cleared. *)
Definition memset_zero (n : Z) (a : list Z) : list Z :=
  replicate (Z.to_nat (n / 2)) 0 ++ drop (Z.to_nat (n / 2)) a.

(** [audioOn]: the timer and PLL registers are outside the model; the
    assignments to [OCR1A] and to the globals are kept. *)
Definition audioOn (s : State) : State :=
  let s := set_OCR1A 128 s in
  let s := set_syncPhaseAcc 0 s in
  let s := set_buff_step 0 s in
  set_buffered_vals (memset_zero BUFF_LENGTH (buffered_vals s)) s.

Definition setup (s : State) : State := audioOn s.

Definition init : State := setup power_on.

(** Program points of [loop], named by source line. *)
Inductive Stmt : Set := L103 | L117 | L118 | L127 | L130 | L133.

Definition next (pc : Stmt) : Stmt :=
  match pc with
  | L103 => L117 | L117 => L118 | L118 => L127
  | L127 => L130 | L130 => L133 | L133 => L103
  end.

(** The accumulation loop of lines 119-120:
    [for (int i = 0; i < BUFF_LENGTH; i++) acc += buffered_vals[i];]
    [n] is the number of iterations left; a read outside the array has no
    defined result. *)
Fixpoint sum_buffer (vals : list Z) (i : nat) (n : nat) (a : Z) : option Z :=
  match n with
  | O => Some a
  | S k => v ← vals !! i; sum_buffer vals (S i) k (to_uint16 (a + v))
  end.

(** The operand of [+=] on line 152:
    [(range_high == 0) ? syncPhaseInc >> 1 : syncPhaseInc >> 4]. *)
Definition phase_advance (range_high syncPhaseInc : Z) : Z :=
  if range_high =? 0 then Z.shiftr syncPhaseInc 1 else Z.shiftr syncPhaseInc 4.

(** The fine-tune expression of line 127, an [int] before it is stored:
    [-64 + (analogRead(OP_INPUT) >> 3)]. *)
Definition finetune_offset (reading : Z) : Z := -64 + Z.shiftr reading 3.

(** Sum of a list of integers. *)
Definition Zsum (l : list Z) : Z := foldr Z.add 0 l.

(** The last [n] elements of a list. *)
Definition last_n {A} (n : nat) (l : list A) : list A :=
  drop (length l - n) l.

(** The readings taken since the running sum was last cleared, out of all
    the readings [l] taken so far. *)
Definition pending {A} (l : list A) : list A :=
  drop (length l - length l mod 4)%nat l.

(** ** Test vectors: tables, lookup functions and inputs to run the model on *)

Definition demo_sine (i : Z) : Z := (128 + 3 * i) mod 256.
Definition demo_triangle (i : Z) : Z := if i <? 128 then 2 * i else 511 - 2 * i.
Definition demo_pulse (i : Z) : Z := if i <? 64 then 255 else 0.
Definition demo_noise (i : Z) : Z := (37 * i + 201) mod 256.
Definition demo_mapFreq (reading : Z) : Z := 16 + 8 * reading.
Definition demo_mapOsc (reading : Z) : Z := reading / 171.
Definition demo_mapFreq_high (reading : Z) : Z := 64512 + reading.

Definition demo_env (cv wave op pin0 : Z) : Env :=
  mkEnv (fun p => match p with
                  | CV_INPUT => cv | WAVE_INPUT => wave | OP_INPUT => op
                  end)
        (fun _ => pin0).

Section Firmware.

(** The tables of [wavetables.h] and the lookup functions [mapFreq] and
    [mapOsc] are parameters.  A table is given by the byte of program
    memory found at each offset from its first element. *)
Variables sine triangle pulse noise : Z -> Z.
Variables mapFreq mapOsc : Z -> Z.

Definition pgm_read_byte_near (table : Z -> Z) (offset : Z) : Z :=
  table offset.

(** [wavetables[]]: the two [NULL] entries stand for saw and square and
    are never dereferenced. *)
Definition wavetables (i : Z) : Z -> Z :=
  if i =? WAVETABLE_SINE then sine
  else if i =? WAVETABLE_TRIANGLE then triangle
  else if i =? WAVETABLE_PULSE then pulse
  else if i =? WAVETABLE_NOISE then noise
  else (fun _ => 0).

(** *** The interrupt service routine *)

Definition ISR (s : State) : State :=
  let s := set_syncPhaseAcc
             (to_uint16 (syncPhaseAcc s +
                         phase_advance (range_high s) (syncPhaseInc s))) s in
  let step := to_uint8 (Z.shiftr (syncPhaseAcc s) 8) in
  let phased_step := to_uint8 (step + phase_offset s) in
  let val :=
    if current_wavetable s =? WAVETABLE_SINE then
      pgm_read_byte_near (wavetables WAVETABLE_SINE) step
    else if current_wavetable s =? WAVETABLE_TRIANGLE then
      pgm_read_byte_near (wavetables WAVETABLE_TRIANGLE) step
    else if current_wavetable s =? WAVETABLE_SAW then
      step
    else if current_wavetable s =? WAVETABLE_SQUARE then
      (if step <? 128 then 0 else 255)
    else if current_wavetable s =? WAVETABLE_PULSE then
      pgm_read_byte_near (wavetables WAVETABLE_PULSE) step
    else
      let val := pgm_read_byte_near (wavetables WAVETABLE_NOISE) step in
      let val := to_uint8
                   (Z.shiftl (pgm_read_byte_near (wavetables WAVETABLE_NOISE)
                                                 phased_step) 1) in
      val
  in
  set_OCR1A val s.

(** [n] consecutive timer ticks with no control-loop statement between. *)
Fixpoint ticks (n : nat) (s : State) : State :=
  match n with
  | O => s
  | S k => ticks k (ISR s)
  end.

(** The samples written by [n] consecutive ticks, oldest first. *)
Fixpoint samples (n : nat) (s : State) : list Z :=
  match n with
  | O => []
  | S k => OCR1A (ISR s) :: samples k (ISR s)
  end.

(** *** The control loop, statement by statement

    A store outside [buffered_vals] has no defined result: [None]. *)

Definition exec_stmt (pc : Stmt) (env : Env) (s : State) : option State :=
  match pc with
  | L103 =>
      Some (set_baseFreq (to_uint16 (mapFreq (analogRead env CV_INPUT))) s)
  | L117 =>
      let i := buff_step s in
      let v := to_uint16 (mapOsc (analogRead env WAVE_INPUT)) in
      if (0 <=? i) && (i <? Z.of_nat (length (buffered_vals s))) then
        Some (set_buffered_vals (<[Z.to_nat i := v]> (buffered_vals s))
                (set_buff_step (to_uint16 (i + 1)) s))
      else None
  | L118 =>
      if buff_step s =? BUFF_LENGTH then
        let s := set_acc 0 s in
        a ← sum_buffer (buffered_vals s) 0 (Z.to_nat BUFF_LENGTH) (acc s);
        let s := set_acc a s in
        let s := set_current_wavetable
                   (to_uint8 (Z.land (Z.shiftr (acc s) BUFF_SHIFT) 255)) s in
        let s := set_acc 0 s in
        Some (set_buff_step 0 s)
      else Some s
  | L127 =>
      Some (set_finetune
              (to_uint16 (finetune_offset (analogRead env OP_INPUT))) s)
  | L130 =>
      Some (set_syncPhaseInc (to_uint16 (baseFreq s + finetune s)) s)
  | L133 =>
      Some (set_range_high (if digitalRead env 0 =? HIGH then 1 else 0) s)
  end.

(** One pass of [loop]. *)
Definition loop (env : Env) (s : State) : option State :=
  s ← exec_stmt L103 env s;
  s ← exec_stmt L117 env s;
  s ← exec_stmt L118 env s;
  s ← exec_stmt L127 env s;
  s ← exec_stmt L130 env s;
  exec_stmt L133 env s.

(** Consecutive passes, one environment per pass. *)
Fixpoint run_loop (envs : list Env) (s : State) : option State :=
  match envs with
  | [] => Some s
  | env :: rest => s' ← loop env s; run_loop rest s'
  end.

(** *** Interleaving

    The timer interrupt may fire between any two statements of [loop];
    each statement is taken to be atomic. *)

Inductive step : Stmt * State -> Stmt * State -> Prop :=
| step_isr pc s :
    step (pc, s) (pc, ISR s)
| step_stmt pc env s s' :
    exec_stmt pc env s = Some s' ->
    step (pc, s) (next pc, s').

Definition reachable (c : Stmt * State) : Prop := rtc step (L103, init) c.

(** The value [mapOsc] returns for the selector reading of a pass. *)
Definition selector_reading (env : Env) : Z :=
  mapOsc (analogRead env WAVE_INPUT).

(** After the readings [rs] the array holds the pending ones in its first
    slots, the write position is just past them and the sum is clear. *)
Definition smoothing_inv (rs : list Z) (s : State) : Prop :=
  exists b0 b1 b2 b3,
    buffered_vals s = [b0; b1; b2; b3] /\
    buff_step s = Z.of_nat (length (pending rs)) /\
    take (length (pending rs)) [b0; b1; b2; b3] = pending rs /\
    acc s = 0.

(** At the top of [loop] the write position lies inside the array. *)
Definition buffer_ok (s : State) : Prop :=
  0 <= buff_step s < BUFF_LENGTH /\
  length (buffered_vals s) = Z.to_nat BUFF_LENGTH.

(** Where the write position lies at each program point: the test of line
    118 sees it one past the slot just written. *)
Definition buffer_inv (c : Stmt * State) : Prop :=
  length (buffered_vals (snd c)) = Z.to_nat BUFF_LENGTH /\
  match fst c with
  | L118 => 1 <= buff_step (snd c) <= BUFF_LENGTH
  | _ => 0 <= buff_step (snd c) < BUFF_LENGTH
  end.

(** Case analysis on one executed statement. *)
Ltac exec_inv H :=
  match type of H with
  | exec_stmt ?pc _ _ = Some _ =>
      destruct pc; cbn [exec_stmt] in H;
      repeat case_match; simplify_option_eq
  end.

(** A table whose 256 entries are bytes. *)
Definition byte_table (table : Z -> Z) : Prop :=
  forall i, 0 <= i < 256 -> 0 <= table i < 256.

(** Every global within the range of its C type; the array keeps its four
    slots and the write position never passes [BUFF_LENGTH]; the globals no
    statement assigns still hold their initial zero, and so does [acc]
    between two statements of [loop]. *)
Definition state_wf (s : State) : Prop :=
  0 <= syncPhaseAcc s < 65536 /\
  0 <= syncPhaseInc s < 65536 /\
  0 <= baseFreq s < 65536 /\
  0 <= finetune s < 65536 /\
  0 <= current_wavetable s < 256 /\
  (range_high s = 0 \/ range_high s = 1) /\
  Forall (fun v => 0 <= v < 65536) (buffered_vals s) /\
  acc s = 0 /\
  syncOffset s = 0 /\ pitch_offset s = 0 /\ phase_offset s = 0 /\
  a1_level s = 0 /\
  length (buffered_vals s) = Z.to_nat BUFF_LENGTH /\
  0 <= buff_step s <= BUFF_LENGTH.

(** The buffer side of [smoothing_inv] alone: after the readings [rs] the
    array holds the pending ones in its first slots and the write position
    is just past them; nothing is said of [acc] or of the other slots. *)
Definition window_inv (rs : list Z) (s : State) : Prop :=
  exists b0 b1 b2 b3,
    buffered_vals s = [b0; b1; b2; b3] /\
    buff_step s = Z.of_nat (length (pending rs)) /\
    take (length (pending rs)) [b0; b1; b2; b3] = pending rs.

(** ** Properties *)

(** *** What a tick leaves alone *)

Lemma ISR_syncPhaseAcc (s : State) :
  syncPhaseAcc (ISR s) =
  to_uint16 (syncPhaseAcc s + phase_advance (range_high s) (syncPhaseInc s)).
Proof. reflexivity. Qed.

(** A selector value outside the five [case] labels fails every test of
    the [switch]. *)
Lemma default_case (w : Z) :
  ~ In w [WAVETABLE_SINE; WAVETABLE_TRIANGLE; WAVETABLE_SAW;
          WAVETABLE_SQUARE; WAVETABLE_PULSE] ->
  (w =? WAVETABLE_SINE) = false /\
  (w =? WAVETABLE_TRIANGLE) = false /\
  (w =? WAVETABLE_SAW) = false /\
  (w =? WAVETABLE_SQUARE) = false /\
  (w =? WAVETABLE_PULSE) = false.
Proof.
  intros Hw. repeat split; apply Z.eqb_neq; intros Heq; apply Hw;
    rewrite Heq; simpl; auto 10.
Qed.

(** The sample written by a tick, in terms of the accumulator it leaves. *)
Lemma ISR_OCR1A (s : State) :
  OCR1A (ISR s) =
  let step := to_uint8 (Z.shiftr (syncPhaseAcc (ISR s)) 8) in
  let phased_step := to_uint8 (step + phase_offset s) in
  if current_wavetable s =? WAVETABLE_SINE then sine step
  else if current_wavetable s =? WAVETABLE_TRIANGLE then triangle step
  else if current_wavetable s =? WAVETABLE_SAW then step
  else if current_wavetable s =? WAVETABLE_SQUARE then
    (if step <? 128 then 0 else 255)
  else if current_wavetable s =? WAVETABLE_PULSE then pulse step
  else to_uint8 (Z.shiftl (noise phased_step) 1).
Proof. reflexivity. Qed.

Lemma ISR_frame (s : State) :
  syncPhaseInc (ISR s) = syncPhaseInc s /\
  range_high (ISR s) = range_high s /\
  current_wavetable (ISR s) = current_wavetable s /\
  phase_offset (ISR s) = phase_offset s.
Proof. repeat split. Qed.

Lemma to_uint16_range (x : Z) : 0 <= to_uint16 x < 65536.
Proof. unfold to_uint16. apply Z.mod_pos_bound. lia. Qed.

Lemma to_uint8_range (x : Z) : 0 <= to_uint8 x < 256.
Proof. unfold to_uint8. apply Z.mod_pos_bound. lia. Qed.

Lemma ISR_syncPhaseAcc_range (s : State) : 0 <= syncPhaseAcc (ISR s) < 65536.
Proof. rewrite ISR_syncPhaseAcc. apply to_uint16_range. Qed.

(** The high byte of a 16-bit value already fits in eight bits. *)
Lemma high_byte (a : Z) :
  0 <= a < 65536 ->
  to_uint8 (Z.shiftr a 8) = Z.shiftr a 8 /\ 0 <= Z.shiftr a 8 <= 255.
Proof.
  intros Ha. rewrite Z.shiftr_div_pow2 by lia. change (2 ^ 8) with 256.
  assert (0 <= a / 256 < 256) by (split; [apply Z.div_pos | apply Z.div_lt_upper_bound]; lia).
  unfold to_uint8. rewrite Z.mod_small by lia. lia.
Qed.

Lemma ticks_frame (n : nat) (s : State) :
  syncPhaseInc (ticks n s) = syncPhaseInc s /\
  range_high (ticks n s) = range_high s /\
  current_wavetable (ticks n s) = current_wavetable s.
Proof.
  revert s. induction n as [|n IH]; intros s; simpl; [repeat split|].
  destruct (IH (ISR s)) as (-> & -> & ->). repeat split.
Qed.

(** After [n] ticks the accumulator has advanced [n] times, modulo 2^16. *)
Lemma ticks_syncPhaseAcc (n : nat) (s : State) :
  0 <= syncPhaseAcc s < 65536 ->
  syncPhaseAcc (ticks n s) =
  to_uint16 (syncPhaseAcc s +
             Z.of_nat n * phase_advance (range_high s) (syncPhaseInc s)).
Proof.
  revert s. induction n as [|n IH]; intros s Hs.
  - simpl. unfold to_uint16. rewrite Z.add_0_r, Z.mod_small; lia.
  - cbn [ticks]. rewrite IH by apply ISR_syncPhaseAcc_range.
    destruct (ISR_frame s) as (-> & -> & _).
    rewrite ISR_syncPhaseAcc. unfold to_uint16.
    rewrite Zplus_mod_idemp_l. f_equal. lia.
Qed.

(** C1: starting from [syncPhaseAcc = 0], [N] ticks with an unchanged
    increment [I] leave [(N * (I >> 1)) mod 65536] in the accumulator in
    the audio range ([range_high = 0]) and [(N * (I >> 4)) mod 65536] in
    the LFO range ([range_high] set). *)
Theorem phase_accumulator_after_ticks (I : Z) (N : nat) (s : State) :
  syncPhaseAcc s = 0 ->
  syncPhaseInc s = I ->
  (range_high s = 0 ->
   syncPhaseAcc (ticks N s) = (Z.of_nat N * Z.shiftr I 1) mod 65536) /\
  (range_high s <> 0 ->
   syncPhaseAcc (ticks N s) = (Z.of_nat N * Z.shiftr I 4) mod 65536).
Proof.
  intros Hacc Hinc.
  assert (Hgen := ticks_syncPhaseAcc N s).
  rewrite Hacc, Hinc in Hgen. specialize (Hgen ltac:(lia)).
  unfold to_uint16, phase_advance in Hgen. rewrite Z.add_0_l in Hgen.
  split; intros Hr.
  - rewrite Hr in Hgen. exact Hgen.
  - apply Z.eqb_neq in Hr. rewrite Hr in Hgen. exact Hgen.
Qed.

(** C2 (as amended): the LFO-range advance is the audio-range advance
    divided by eight and rounded down; it is exactly one eighth when, and
    only when, bits 1 to 3 of the increment are clear. *)
Theorem range_ratio_floor (rh I : Z) :
  rh <> 0 ->
  phase_advance rh I = phase_advance 0 I / 8 /\
  (8 * phase_advance rh I = phase_advance 0 I <-> I mod 16 < 2).
Proof.
  intros Hrh. apply Z.eqb_neq in Hrh. unfold phase_advance.
  rewrite Hrh. change (0 =? 0) with true. cbv iota.
  rewrite !Z.shiftr_div_pow2 by lia.
  change (2 ^ 4) with 16. change (2 ^ 1) with 2.
  assert (HI : I / 16 = I / 2 / 8) by (rewrite Z.div_div by lia; reflexivity).
  split; [exact HI|].
  rewrite HI.
  pose proof (Z.div_mod (I / 2) 8 ltac:(lia)) as Hd.
  pose proof (Z.mod_pos_bound (I / 2) 8 ltac:(lia)) as Hb.
  pose proof (Z.div_mod I 2 ltac:(lia)) as Hd2.
  pose proof (Z.mod_pos_bound I 2 ltac:(lia)) as Hb2.
  pose proof (Z.div_mod I 16 ltac:(lia)) as Hd16.
  pose proof (Z.mod_pos_bound I 16 ltac:(lia)) as Hb16.
  rewrite HI in Hd16. lia.
Qed.

(** C3: every [current_wavetable] other than sine, triangle, saw, square
    and pulse takes the [default] branch, which writes the doubled noise
    byte at [(step + phase_offset) mod 256], wrapped to eight bits. *)
Theorem noise_fallback (s : State) :
  ~ In (current_wavetable s)
       [WAVETABLE_SINE; WAVETABLE_TRIANGLE; WAVETABLE_SAW;
        WAVETABLE_SQUARE; WAVETABLE_PULSE] ->
  let step := Z.shiftr (syncPhaseAcc (ISR s)) 8 in
  0 <= step <= 255 /\
  OCR1A (ISR s) = (noise ((step + phase_offset s) mod 256) * 2) mod 256.
Proof.
  intros Hw step.
  destruct (high_byte _ (ISR_syncPhaseAcc_range s)) as [Hstep Hrange].
  split; [exact Hrange|].
  rewrite ISR_OCR1A. cbv zeta.
  destruct (default_case _ Hw) as (-> & -> & -> & -> & ->).
  rewrite Hstep, Z.shiftl_mul_pow2 by lia. reflexivity.
Qed.

(** C5: with the square waveform selected, a tick from any state moves the
    accumulator to [(syncPhaseAcc + advance) mod 2^16], and the sample it
    writes is 0 while the high byte [step] of that value is at most 127 and
    255 from 128 on; nothing else is ever written. *)
Theorem square_output (s : State) :
  current_wavetable s = WAVETABLE_SQUARE ->
  let step :=
    Z.shiftr (to_uint16 (syncPhaseAcc s +
                         phase_advance (range_high s) (syncPhaseInc s))) 8 in
  step = Z.shiftr (syncPhaseAcc (ISR s)) 8 /\
  0 <= step <= 255 /\
  (0 <= step <= 127 -> OCR1A (ISR s) = 0) /\
  (128 <= step <= 255 -> OCR1A (ISR s) = 255) /\
  (OCR1A (ISR s) = 0 \/ OCR1A (ISR s) = 255).
Proof.
  intros Hw step. subst step. rewrite <- ISR_syncPhaseAcc.
  set (step := Z.shiftr (syncPhaseAcc (ISR s)) 8).
  destruct (high_byte _ (ISR_syncPhaseAcc_range s)) as [Hstep Hrange].
  assert (Hval : OCR1A (ISR s) = if step <? 128 then 0 else 255).
  { rewrite ISR_OCR1A, Hw. cbv zeta. rewrite Hstep. reflexivity. }
  rewrite Hval. split; [reflexivity|]. split; [exact Hrange|].
  destruct (Z.ltb_spec step 128); repeat split; intros; try lia; auto.
Qed.

(** *** What the control loop leaves alone *)

Lemma exec_stmt_frame (pc : Stmt) (env : Env) (s s' : State) :
  exec_stmt pc env s = Some s' ->
  syncPhaseAcc s' = syncPhaseAcc s /\
  phase_offset s' = phase_offset s /\
  OCR1A s' = OCR1A s.
Proof. intros H. exec_inv H; repeat split. Qed.

(** The two buffer statements touch none of the published tuning. *)
Lemma exec_buffer_frame (pc : Stmt) (env : Env) (s s' : State) :
  pc = L117 \/ pc = L118 ->
  exec_stmt pc env s = Some s' ->
  baseFreq s' = baseFreq s /\
  finetune s' = finetune s /\
  syncPhaseInc s' = syncPhaseInc s /\
  range_high s' = range_high s.
Proof.
  intros [->| ->] H; cbn [exec_stmt] in H;
    repeat case_match; simplify_option_eq; repeat split.
Qed.

(** What one pass publishes, whenever it completes. *)
Lemma loop_publishes (env : Env) (s s' : State) :
  loop env s = Some s' ->
  baseFreq s' = to_uint16 (mapFreq (analogRead env CV_INPUT)) /\
  finetune s' = to_uint16 (finetune_offset (analogRead env OP_INPUT)) /\
  syncPhaseInc s' = to_uint16 (baseFreq s' + finetune s') /\
  range_high s' = (if digitalRead env 0 =? HIGH then 1 else 0) /\
  syncPhaseAcc s' = syncPhaseAcc s /\
  phase_offset s' = phase_offset s /\
  OCR1A s' = OCR1A s.
Proof.
  unfold loop. intros H.
  apply bind_Some in H as (s1 & E1 & H).
  apply bind_Some in H as (s2 & E2 & H).
  apply bind_Some in H as (s3 & E3 & H).
  apply bind_Some in H as (s4 & E4 & H).
  apply bind_Some in H as (s5 & E5 & H).
  destruct (exec_stmt_frame _ _ _ _ E2) as (A2 & P2 & O2).
  destruct (exec_stmt_frame _ _ _ _ E3) as (A3 & P3 & O3).
  destruct (exec_buffer_frame _ _ _ _ (or_introl eq_refl) E2) as (B2 & _).
  destruct (exec_buffer_frame _ _ _ _ (or_intror eq_refl) E3) as (B3 & _).
  cbn [exec_stmt] in E1, E4, E5, H.
  injection E1 as <-. injection E4 as <-. injection E5 as <-. injection H as <-.
  cbn. rewrite A3, A2, P3, P2, O3, O2, B3, B2. repeat split.
Qed.

(** The buffer side of one pass, with the array contents named. *)
Lemma loop_buffer (env : Env) (s : State) (b0 b1 b2 b3 : Z) :
  buffered_vals s = [b0; b1; b2; b3] ->
  0 <= buff_step s < 4 ->
  exists s', loop env s = Some s' /\
    let m := to_uint16 (mapOsc (analogRead env WAVE_INPUT)) in
    let vals := <[Z.to_nat (buff_step s) := m]> [b0; b1; b2; b3] in
    buffered_vals s' = vals /\
    if buff_step s =? 3 then
      buff_step s' = 0 /\ acc s' = 0 /\
      current_wavetable s' =
      to_uint8 (Z.land (Z.shiftr
        (to_uint16 (to_uint16 (to_uint16 (to_uint16 (0 + b0) + b1) + b2) + m))
        BUFF_SHIFT) 255)
    else
      buff_step s' = buff_step s + 1 /\ acc s' = acc s /\
      current_wavetable s' = current_wavetable s.
Proof.
  intros Hb Hk.
  assert (Hcases : buff_step s = 0 \/ buff_step s = 1 \/
                   buff_step s = 2 \/ buff_step s = 3) by lia.
  unfold loop. cbn [exec_stmt mbind option_bind buff_step buffered_vals
                    set_baseFreq].
  rewrite Hb.
  destruct Hcases as [Hc|[Hc|[Hc|Hc]]]; rewrite Hc;
    eexists; (split; [reflexivity|]); repeat split.
Qed.

Lemma buffer_ok_elems (s : State) :
  buffer_ok s -> exists b0 b1 b2 b3, buffered_vals s = [b0; b1; b2; b3].
Proof.
  intros [_ Hlen]. change (Z.to_nat BUFF_LENGTH) with 4%nat in Hlen.
  destruct (buffered_vals s) as [|b0 [|b1 [|b2 [|b3 [|b4 l]]]]];
    try discriminate.
  by exists b0, b1, b2, b3.
Qed.

(** From a state with the write position inside the array a pass runs to
    its end, and leaves the write position inside the array. *)
Lemma loop_defined (env : Env) (s : State) :
  buffer_ok s -> exists s', loop env s = Some s' /\ buffer_ok s'.
Proof.
  intros Hok. destruct (buffer_ok_elems s Hok) as (b0 & b1 & b2 & b3 & Hb).
  destruct Hok as [Hk _]. change BUFF_LENGTH with 4 in Hk.
  destruct (loop_buffer env s b0 b1 b2 b3 Hb Hk) as (s' & Hrun & Hvals & Hrest).
  exists s'. split; [exact Hrun|]. unfold buffer_ok.
  rewrite Hvals, length_insert. change BUFF_LENGTH with 4.
  split; [|reflexivity].
  destruct (Z.eqb_spec (buff_step s) 3); destruct Hrest as (-> & _); lia.
Qed.

Lemma init_buffer_ok : buffer_ok init.
Proof. split; [vm_compute; split; [discriminate | reflexivity] | reflexivity]. Qed.

(** C7: for a fine-tune reading [r] in [0, 1023] the pass computes the
    signed offset [(r >> 3) - 64], which is zero exactly when [r >> 3] is
    the quantised midpoint [512 >> 3], stores it in [finetune] modulo 2^16
    and publishes [syncPhaseInc = (baseFreq + offset) mod 2^16]. *)
Theorem finetune_centered (env : Env) (s : State) :
  buffer_ok s ->
  0 <= analogRead env OP_INPUT <= 1023 ->
  exists s', loop env s = Some s' /\
    let r := analogRead env OP_INPUT in
    let offset := finetune_offset r in
    offset = Z.shiftr r 3 - 64 /\
    -64 <= offset <= 63 /\
    (offset = 0 <-> Z.shiftr r 3 = Z.shiftr 512 3) /\
    (offset = 0 <-> 512 <= r <= 519) /\
    baseFreq s' = to_uint16 (mapFreq (analogRead env CV_INPUT)) /\
    finetune s' = offset mod 65536 /\
    syncPhaseInc s' = (baseFreq s' + offset) mod 65536.
Proof.
  intros Hok Hr. destruct (loop_defined env s Hok) as (s' & Hrun & _).
  exists s'. split; [exact Hrun|].
  destruct (loop_publishes env s s' Hrun) as (Hbf & Hft & Hinc & _).
  cbv zeta. rewrite Hinc, Hft. unfold finetune_offset, to_uint16.
  rewrite Zplus_mod_idemp_r.
  rewrite !Z.shiftr_div_pow2 by lia. change (2 ^ 3) with 8.
  change (512 / 8) with 64.
  pose proof (Z.div_mod (analogRead env OP_INPUT) 8 ltac:(lia)).
  pose proof (Z.mod_pos_bound (analogRead env OP_INPUT) 8 ltac:(lia)).
  repeat split; try lia. exact Hbf.
Qed.

(** C8: a pass of the control loop leaves [syncPhaseAcc] as it found it,
    whatever it publishes in [range_high]. *)
Theorem loop_preserves_syncPhaseAcc (env : Env) (s : State) :
  buffer_ok s ->
  exists s', loop env s = Some s' /\
    syncPhaseAcc s' = syncPhaseAcc s /\
    range_high s' = (if digitalRead env 0 =? HIGH then 1 else 0).
Proof.
  intros Hok. destruct (loop_defined env s Hok) as (s' & Hrun & _).
  exists s'. split; [exact Hrun|].
  destruct (loop_publishes env s s' Hrun) as (_ & _ & _ & Hrh & Hacc & _).
  by split.
Qed.

(** C10: [finetune] is unsigned, so when [baseFreq + (r >> 3)] is below
    64 the published increment is the sum wrapped modulo 2^16, a value of
    at least 65472, not zero. *)
Theorem finetune_wraps (env : Env) (s : State) :
  let r := analogRead env OP_INPUT in
  let base := to_uint16 (mapFreq (analogRead env CV_INPUT)) in
  buffer_ok s ->
  0 <= r <= 1023 ->
  base + Z.shiftr r 3 < 64 ->
  exists s', loop env s = Some s' /\
    baseFreq s' = base /\
    finetune s' = (Z.shiftr r 3 - 64) mod 65536 /\
    syncPhaseInc s' = base + Z.shiftr r 3 - 64 + 65536 /\
    65472 <= syncPhaseInc s' <= 65535.
Proof.
  intros r base Hok Hr Hsmall.
  destruct (loop_defined env s Hok) as (s' & Hrun & _).
  exists s'. split; [exact Hrun|].
  destruct (loop_publishes env s s' Hrun) as (Hbf & Hft & Hinc & _).
  fold base in Hbf. fold r in Hft.
  assert (Hb : 0 <= base < 65536) by apply to_uint16_range.
  assert (Hq : 0 <= Z.shiftr r 3) by (apply Z.shiftr_nonneg; lia).
  assert (Hval : syncPhaseInc s' = base + Z.shiftr r 3 - 64 + 65536).
  { rewrite Hinc, Hft, Hbf. unfold finetune_offset, to_uint16.
    rewrite Zplus_mod_idemp_r.
    replace (base + (-64 + Z.shiftr r 3))
      with (base + Z.shiftr r 3 - 64 + 65536 + (-1) * 65536) by lia.
    rewrite Z.mod_add by lia. apply Z.mod_small. lia. }
  rewrite Hval. repeat split; try lia.
  rewrite Hft. unfold finetune_offset, to_uint16. f_equal. lia.
Qed.

(** *** Reachable states *)

Lemma step_phase_offset (c c' : Stmt * State) :
  step c c' -> phase_offset (snd c') = phase_offset (snd c).
Proof.
  intros [pc s | pc env s s' H]; cbn [snd].
  - apply ISR_frame.
  - apply (exec_stmt_frame _ _ _ _ H).
Qed.

(** C9: [phase_offset] is still 0 in every reachable state, so the
    phased step of a tick is the step itself and the [default] branch
    reads the noise table at [step]. *)
Theorem phase_offset_always_zero (c : Stmt * State) :
  reachable c ->
  let s := snd c in
  let step := to_uint8 (Z.shiftr (syncPhaseAcc (ISR s)) 8) in
  phase_offset s = 0 /\
  to_uint8 (step + phase_offset s) = step /\
  (~ In (current_wavetable s)
        [WAVETABLE_SINE; WAVETABLE_TRIANGLE; WAVETABLE_SAW;
         WAVETABLE_SQUARE; WAVETABLE_PULSE] ->
   OCR1A (ISR s) = to_uint8 (Z.shiftl (noise step) 1)).
Proof.
  intros Hreach s step.
  assert (Hzero : phase_offset s = 0).
  { subst s. unfold reachable in Hreach.
    pattern c. eapply rtc_ind_r; [ | | exact Hreach]; cbn beta.
    - reflexivity.
    - intros c1 c2 _ Hstep IH.
      rewrite (step_phase_offset _ _ Hstep). exact IH. }
  assert (Hphased : to_uint8 (step + phase_offset s) = step).
  { rewrite Hzero, Z.add_0_r. unfold step, to_uint8.
    apply Z.mod_mod. lia. }
  repeat split; [exact Hzero | exact Hphased |].
  intros Hw. rewrite ISR_OCR1A. cbv zeta. fold step. rewrite Hphased.
  destruct (default_case _ Hw) as (-> & -> & -> & -> & ->). reflexivity.
Qed.

(** *** The computed waveforms over several ticks *)

Lemma ticks_S (n : nat) (s : State) : ticks (S n) s = ISR (ticks n s).
Proof.
  revert s. induction n as [|n IH]; intros s; [reflexivity|].
  change (ticks (S (S n)) s) with (ticks (S n) (ISR s)).
  rewrite IH. reflexivity.
Qed.

Lemma saw_sample (s : State) :
  current_wavetable s = WAVETABLE_SAW ->
  OCR1A (ISR s) = Z.shiftr (syncPhaseAcc (ISR s)) 8.
Proof.
  intros Hw. rewrite ISR_OCR1A, Hw. cbv zeta.
  apply (high_byte _ (ISR_syncPhaseAcc_range s)).
Qed.

(** C6 (as amended): with the saw selected the sample is the high byte of
    the accumulator.  On a tick that does not wrap the accumulator the
    sample never decreases; it strictly increases when the effective
    increment is at least 256, and goes up by exactly one when the
    effective increment is 256, in which case the samples that follow
    accumulator 0 are 1, 2, ..., 255, 0, ... *)
Theorem saw_output (s : State) :
  current_wavetable s = WAVETABLE_SAW ->
  0 <= syncPhaseAcc s < 65536 ->
  let d := phase_advance (range_high s) (syncPhaseInc s) in
  let step0 := Z.shiftr (syncPhaseAcc s) 8 in
  let step := Z.shiftr (syncPhaseAcc (ISR s)) 8 in
  OCR1A (ISR s) = step /\
  (0 <= d -> syncPhaseAcc s + d < 65536 ->
   step0 <= step /\
   (256 <= d -> step0 < step) /\
   (d = 256 -> step = step0 + 1)) /\
  (syncPhaseAcc s = 0 -> d = 256 ->
   forall n, OCR1A (ticks (S n) s) = Z.of_nat (S n) mod 256).
Proof.
  intros Hw Ha d step0 step. split; [exact (saw_sample s Hw)|]. split.
  - intros Hd Hnowrap. subst step step0.
    rewrite ISR_syncPhaseAcc. fold d. unfold to_uint16.
    rewrite Z.mod_small by lia.
    rewrite !Z.shiftr_div_pow2 by lia. change (2 ^ 8) with 256.
    split; [apply Z.div_le_mono; lia|]. split.
    + intros Hbig.
      assert (syncPhaseAcc s / 256 + 1 <= (syncPhaseAcc s + d) / 256); [|lia].
      replace (syncPhaseAcc s / 256 + 1) with ((syncPhaseAcc s + 1 * 256) / 256)
        by (rewrite Z.div_add by lia; reflexivity).
      apply Z.div_le_mono; lia.
    + intros ->. change 256 with (1 * 256) at 1.
      rewrite Z.div_add by lia. reflexivity.
  - intros Hzero Hd n.
    rewrite ticks_S, saw_sample
      by (destruct (ticks_frame n s) as (_ & _ & ->); exact Hw).
    rewrite <- ticks_S, ticks_syncPhaseAcc by exact Ha.
    fold d. rewrite Hzero, Hd, Z.add_0_l. unfold to_uint16.
    change 65536 with (256 * 256).
    rewrite Z.mul_mod_distr_r by lia.
    rewrite Z.shiftr_div_pow2 by lia. change (2 ^ 8) with 256.
    apply Z.div_mul. lia.
Qed.

(** *** The smoothing buffer *)

Lemma pending_length {A} (l : list A) :
  length (pending l) = (length l mod 4)%nat.
Proof.
  unfold pending. rewrite length_drop.
  pose proof (Nat.mod_upper_bound (length l) 4 ltac:(lia)).
  pose proof (Nat.Div0.mod_le (length l) 4). lia.
Qed.

Lemma mod4_succ (n : nat) :
  ((n mod 4 = 3 /\ (n + 1) mod 4 = 0) \/
   (n mod 4 <> 3 /\ (n + 1) mod 4 = n mod 4 + 1))%nat.
Proof.
  pose proof (Nat.mod_upper_bound n 4 ltac:(lia)) as Hb.
  pose proof (Nat.div_mod_eq n 4) as Hn.
  destruct (Nat.eq_dec (n mod 4)%nat 3%nat) as [H3|H3]; [left|right]; split; try done.
  - symmetry. apply (Nat.mod_unique _ 4 (n / 4 + 1))%nat; lia.
  - symmetry. apply (Nat.mod_unique _ 4 (n / 4))%nat; lia.
Qed.

Lemma pending_snoc {A} (l : list A) (x : A) :
  if (length (l ++ [x]) mod 4 =? 0)%nat
  then pending (l ++ [x]) = [] /\ last_n 4 (l ++ [x]) = pending l ++ [x] /\
       length (pending l) = 3%nat
  else pending (l ++ [x]) = pending l ++ [x].
Proof.
  pose proof (Nat.Div0.mod_le (length l) 4) as Hle.
  unfold pending, last_n. rewrite length_app. cbn [length].
  destruct (mod4_succ (length l)) as [[H3 H0]|[H3 HS]].
  - rewrite H0. cbn [Nat.eqb]. rewrite Nat.sub_0_r. repeat split.
    + apply drop_ge. rewrite length_app. cbn [length]. lia.
    + rewrite H3. replace (length l + 1 - 4)%nat with (length l - 3)%nat by lia.
      apply drop_app_le. lia.
    + rewrite length_drop. lia.
  - rewrite HS. replace (length l mod 4 + 1 =? 0)%nat with false
      by (symmetry; apply Nat.eqb_neq; lia).
    replace (length l + 1 - (length l mod 4 + 1))%nat
      with (length l - length l mod 4)%nat by lia.
    apply drop_app_le. lia.
Qed.

Lemma run_loop_snoc (envs : list Env) (env : Env) (s : State) :
  run_loop (envs ++ [env]) s = run_loop envs s ≫= loop env.
Proof.
  revert s. induction envs as [|e envs IH]; intros s; simpl.
  - by destruct (loop env s).
  - destruct (loop e s) as [s1|]; simpl; [apply IH | reflexivity].
Qed.

Lemma to_uint16_small (x : Z) : 0 <= x < 65536 -> to_uint16 x = x.
Proof. intros H. unfold to_uint16. apply Z.mod_small. exact H. Qed.

(** Four bytes summed and shifted as lines 119-121 do. *)
Lemma average_of_bytes (b0 b1 b2 b3 : Z) :
  0 <= b0 < 256 -> 0 <= b1 < 256 -> 0 <= b2 < 256 -> 0 <= b3 < 256 ->
  to_uint8 (Z.land (Z.shiftr
    (to_uint16 (to_uint16 (to_uint16 (to_uint16 (0 + b0) + b1) + b2) + b3))
    BUFF_SHIFT) 255) = Zsum [b0; b1; b2; b3] / 4.
Proof.
  intros H0 H1 H2 H3.
  rewrite (to_uint16_small (0 + b0)) by lia.
  rewrite (to_uint16_small (0 + b0 + b1)) by lia.
  rewrite (to_uint16_small (0 + b0 + b1 + b2)) by lia.
  rewrite (to_uint16_small (0 + b0 + b1 + b2 + b3)) by lia.
  unfold BUFF_SHIFT. rewrite Z.shiftr_div_pow2 by lia. change (2 ^ 2) with 4.
  change 255 with (Z.ones 8). rewrite Z.land_ones by lia.
  change (2 ^ 8) with 256.
  set (q := (0 + b0 + b1 + b2 + b3) / 4).
  assert (0 <= q < 256)
    by (split; [apply Z.div_pos | apply Z.div_lt_upper_bound]; lia).
  unfold to_uint8. rewrite !(Z.mod_small q) by lia.
  unfold q. f_equal. cbn [Zsum foldr]. lia.
Qed.

(** One more pass keeps the buffer invariant, and publishes the average
    exactly when the reading count reaches a multiple of four. *)
Lemma smoothing_step (rs : list Z) (env : Env) (s : State) :
  smoothing_inv rs s ->
  Forall (fun x => 0 <= x < 256) (rs ++ [selector_reading env]) ->
  exists s', loop env s = Some s' /\
    smoothing_inv (rs ++ [selector_reading env]) s' /\
    if (length (rs ++ [selector_reading env]) mod 4 =? 0)%nat
    then current_wavetable s' =
           Zsum (last_n 4 (rs ++ [selector_reading env])) / 4 /\
         acc s' = 0 /\ buff_step s' = 0
    else current_wavetable s' = current_wavetable s.
Proof.
  intros (b0 & b1 & b2 & b3 & Hb & Hk & Htake & Hacc) Hbytes.
  set (m := selector_reading env) in *.
  assert (Hm : 0 <= m < 256).
  { pose proof Hbytes as Hall. apply Forall_app in Hall as [_ Hm].
    exact (Forall_inv Hm). }
  pose proof (pending_length rs) as Hlen.
  pose proof (Nat.mod_upper_bound (length rs) 4 ltac:(lia)) as Hlt.
  destruct (loop_buffer env s b0 b1 b2 b3 Hb ltac:(lia))
    as (s' & Hrun & Hvals & Hrest).
  fold (selector_reading env) in Hvals, Hrest. fold m in Hvals, Hrest.
  rewrite (to_uint16_small m) in Hvals, Hrest by lia.
  exists s'. split; [exact Hrun|].
  pose proof (pending_snoc rs m) as Hsnoc.
  destruct (length (rs ++ [m]) mod 4 =? 0)%nat eqn:E.
  - destruct Hsnoc as (Hp & Hlast & H3).
    rewrite H3 in Hk, Htake. rewrite Hk in Hvals, Hrest.
    cbn in Hvals, Htake. change (Z.of_nat 3 =? 3) with true in Hrest.
    destruct Hrest as (Hstep & Hacc' & Hcw).
    split.
    + exists b0, b1, b2, m. rewrite Hp. by repeat split.
    + split; [|by split]. rewrite Hcw, Hlast, <- Htake.
      assert (Hall : Forall (fun x => 0 <= x < 256) [b0; b1; b2; m]).
      { change [b0; b1; b2; m] with ([b0; b1; b2] ++ [m]).
        rewrite Htake, <- Hlast. unfold last_n. by apply Forall_drop. }
      inversion Hall as [|? ? B0 Hall1]; subst.
      inversion Hall1 as [|? ? B1 Hall2]; subst.
      inversion Hall2 as [|? ? B2 _]; subst.
      by apply average_of_bytes.
  - assert (Hk3 : length (pending rs) <> 3%nat).
    { intros H3. rewrite length_app in E. cbn [length] in E.
      destruct (mod4_succ (length rs)) as [[_ H0]|[Hn _]]; [|lia].
      rewrite H0 in E. discriminate. }
    assert (Hne : (buff_step s =? 3) = false) by (apply Z.eqb_neq; lia).
    rewrite Hne in Hrest. destruct Hrest as (Hstep & Hacc' & Hcw).
    split; [|exact Hcw].
    rewrite Hk in Hvals, Hstep. rewrite Nat2Z.id in Hvals.
    remember (length (pending rs)) as k eqn:Heqk.
    assert (Hnew : length (pending (rs ++ [m])) = S k)
      by (rewrite Hsnoc, length_app, <- Heqk; cbn [length]; lia).
    assert (k = 0 \/ k = 1 \/ k = 2)%nat as [->|[->| ->]] by lia;
      cbn in Hvals, Htake; eexists _, _, _, _; rewrite Hnew, Hsnoc, <- Htake;
      (split; [exact Hvals|]); (split; [rewrite Hstep; reflexivity|]);
      (split; [reflexivity|]); lia.
Qed.

Lemma init_smoothing_inv : smoothing_inv [] init.
Proof. exists 0, 0, 0, 0. by repeat split. Qed.

(** Any number of passes from [init] runs to its end and keeps the
    invariant, as long as [mapOsc] returns bytes. *)
Lemma run_loop_smoothing (envs : list Env) :
  Forall (fun x => 0 <= x < 256) (map selector_reading envs) ->
  exists s, run_loop envs init = Some s /\
            smoothing_inv (map selector_reading envs) s.
Proof.
  induction envs as [|env envs IH] using rev_ind; intros Hbytes.
  - exists init. split; [reflexivity | exact init_smoothing_inv].
  - rewrite map_app in Hbytes |- *. cbn [map] in Hbytes |- *.
    destruct IH as (s & Hrun & Hinv).
    { by apply Forall_app in Hbytes as [? _]. }
    destruct (smoothing_step _ env s Hinv Hbytes) as (s' & Hloop & Hinv' & _).
    exists s'. split; [|exact Hinv'].
    rewrite run_loop_snoc, Hrun. exact Hloop.
Qed.

(** C4: whatever the selector readings, as long as [mapOsc] returns
    bytes: [current_wavetable] is written only by the pass that takes the
    4th, 8th, ... reading, which sets it to the sum of the last four
    mapped readings divided by four, rounded down, and leaves [acc] and
    [buff_step] at zero; any other pass leaves [current_wavetable] as it
    was. *)
Theorem smoothing_every_fourth (envs : list Env) (env : Env) :
  let readings := map selector_reading (envs ++ [env]) in
  Forall (fun x => 0 <= x < 256) readings ->
  exists s s',
    run_loop envs init = Some s /\
    loop env s = Some s' /\
    run_loop (envs ++ [env]) init = Some s' /\
    if (length readings mod 4 =? 0)%nat
    then current_wavetable s' = Zsum (last_n 4 readings) / 4 /\
         acc s' = 0 /\ buff_step s' = 0
    else current_wavetable s' = current_wavetable s.
Proof.
  intros readings Hbytes. subst readings.
  rewrite map_app in Hbytes |- *. cbn [map] in Hbytes |- *.
  destruct (run_loop_smoothing envs) as (s & Hrun & Hinv).
  { by apply Forall_app in Hbytes as [? _]. }
  destruct (smoothing_step _ env s Hinv Hbytes) as (s' & Hloop & _ & Hpub).
  exists s, s'. repeat split; try done.
  rewrite run_loop_snoc, Hrun. exact Hloop.
Qed.

(** *** The write position in reachable states *)

Lemma step_buffer_inv (c c' : Stmt * State) :
  step c c' -> buffer_inv c -> buffer_inv c'.
Proof.
  unfold buffer_inv, BUFF_LENGTH.
  intros [pc s | pc env s s' H]; cbn [fst snd]; [intros Hinv; exact Hinv|].
  intros [Hlen Hk].
  destruct pc; cbn [exec_stmt next] in *;
    repeat case_match; simplify_option_eq; cbn;
    rewrite ?length_insert, ?to_uint16_small by lia;
    (split; [assumption|]); unfold BUFF_LENGTH in *; lia.
Qed.

(** Every time the program is at the top of [loop], a pass can run. *)
Lemma reachable_buffer_ok (s : State) : reachable (L103, s) -> buffer_ok s.
Proof.
  intros Hreach. unfold reachable in Hreach.
  assert (Hinv : buffer_inv (L103, s)).
  { pattern (L103, s). eapply rtc_ind_r; [ | | exact Hreach]; cbn beta.
    - split; [reflexivity | vm_compute; split; [discriminate | reflexivity]].
    - intros c1 c2 _ Hstep IH. exact (step_buffer_inv _ _ Hstep IH). }
  destruct Hinv as [Hlen Hk]. split; assumption.
Qed.

(** ** Further properties of [loop], [ISR] and [audioOn] *)

(** *** The array is never overrun *)

Lemma reachable_buffer_inv (c : Stmt * State) : reachable c -> buffer_inv c.
Proof.
  intros Hreach. unfold reachable in Hreach.
  pattern c. eapply rtc_ind_r; [ | | exact Hreach]; cbn beta.
  - split; [reflexivity | vm_compute; split; [discriminate | reflexivity]].
  - intros c1 c2 _ Hstep IH. exact (step_buffer_inv _ _ Hstep IH).
Qed.

(** X1: in every reachable state the statement about to run has a defined
    result, whatever the inputs: the store of line 117 and the four reads
    of line 120 always fall inside [buffered_vals]. *)
Theorem loop_never_overruns_buffer (c : Stmt * State) (env : Env) :
  reachable c ->
  exists s', exec_stmt (fst c) env (snd c) = Some s'.
Proof.
  intros Hreach. destruct (reachable_buffer_inv c Hreach) as [Hlen Hk].
  destruct c as [pc s]. cbn [fst snd] in *.
  change (Z.to_nat BUFF_LENGTH) with 4%nat in Hlen. unfold BUFF_LENGTH in Hk.
  destruct pc; cbn [exec_stmt]; try (eexists; reflexivity).
  - rewrite Hlen.
    replace ((0 <=? buff_step s) && (buff_step s <? Z.of_nat 4)) with true
      by (symmetry; apply andb_true_iff; split;
          [apply Z.leb_le | apply Z.ltb_lt]; lia).
    eexists; reflexivity.
  - destruct (buff_step s =? BUFF_LENGTH); [|eexists; reflexivity].
    cbn [buffered_vals set_acc acc].
    destruct (buffered_vals s) as [|b0 [|b1 [|b2 [|b3 [|b4 l]]]]];
      try discriminate.
    eexists; reflexivity.
Qed.

(** *** Ranges of the globals *)

Lemma init_state_wf : state_wf init.
Proof.
  unfold state_wf, BUFF_LENGTH. cbn.
  repeat split; try lia; auto; repeat constructor; lia.
Qed.

Lemma ISR_state_wf (s : State) : state_wf s -> state_wf (ISR s).
Proof.
  unfold state_wf. intros (_ & H). split; [apply ISR_syncPhaseAcc_range|].
  exact H.
Qed.

Lemma exec_stmt_state_wf (pc : Stmt) (env : Env) (s s' : State) :
  exec_stmt pc env s = Some s' -> state_wf s -> state_wf s'.
Proof.
  unfold state_wf, BUFF_LENGTH.
  intros H (Ha & Hi & Hb & Hf & Hw & Hr & Hv & Hacc & Hso & Hpi & Hph & Ha1 &
            Hlen & Hk).
  change (Z.to_nat 4) with 4%nat in *.
  destruct pc; cbn [exec_stmt] in H.
  - injection H as <-. cbn. pose proof (to_uint16_range
      (mapFreq (analogRead env CV_INPUT))). repeat split; assumption || lia.
  - destruct (_ && _) eqn:Hguard; [|discriminate]. injection H as <-.
    apply andb_true_iff in Hguard as [Hlo Hhi].
    apply Z.leb_le in Hlo. apply Z.ltb_lt in Hhi. rewrite Hlen in Hhi.
    cbn. rewrite length_insert, (to_uint16_small (buff_step s + 1)) by lia.
    repeat split; try assumption; try lia.
    apply Forall_insert; [exact Hv | apply to_uint16_range].
  - destruct (buff_step s =? BUFF_LENGTH);
      [|injection H as <-; repeat split; assumption || lia].
    apply bind_Some in H as (a & _ & H). injection H as <-. cbn.
    pose proof (to_uint8_range (Z.land (Z.shiftr a BUFF_SHIFT) 255)).
    repeat split; assumption || lia.
  - injection H as <-. cbn. pose proof (to_uint16_range
      (finetune_offset (analogRead env OP_INPUT))).
    repeat split; assumption || lia.
  - injection H as <-. cbn. pose proof (to_uint16_range
      (baseFreq s + finetune s)). repeat split; assumption || lia.
  - injection H as <-. cbn.
    repeat split; try assumption; try lia.
    destruct (digitalRead env 0 =? HIGH); auto.
Qed.

Lemma step_state_wf (c c' : Stmt * State) :
  step c c' -> state_wf (snd c) -> state_wf (snd c').
Proof.
  intros [pc s | pc env s s' H] Hwf; cbn [snd] in *.
  - exact (ISR_state_wf s Hwf).
  - exact (exec_stmt_state_wf _ _ _ _ H Hwf).
Qed.

Lemma rtc_step_state_wf (c c' : Stmt * State) :
  rtc step c c' -> state_wf (snd c) -> state_wf (snd c').
Proof.
  induction 1 as [|c1 c2 c3 Hstep _ IH]; intros Hwf; [exact Hwf|].
  apply IH. exact (step_state_wf _ _ Hstep Hwf).
Qed.

(** X2: in every reachable state each global lies in the range of its C
    type, [range_high] is 0 or 1, the array has its four slots and
    [buff_step] is between 0 and [BUFF_LENGTH], [acc] is back at 0 between
    any two statements, and the four globals nothing assigns are still 0. *)
Theorem reachable_state_wf (c : Stmt * State) :
  reachable c -> state_wf (snd c).
Proof.
  intros Hreach. exact (rtc_step_state_wf _ _ Hreach init_state_wf).
Qed.

(** The sample a tick writes is a byte as soon as the three tables read
    by the explicit cases hold bytes. *)
Lemma ISR_OCR1A_byte (s : State) :
  byte_table sine -> byte_table triangle -> byte_table pulse ->
  0 <= OCR1A (ISR s) < 256.
Proof.
  intros Hs Ht Hp. rewrite ISR_OCR1A. cbv zeta.
  pose proof (to_uint8_range (Z.shiftr (syncPhaseAcc (ISR s)) 8)) as Hstep.
  repeat case_match; try lia; auto using to_uint8_range.
Qed.

(** X3: when the sine, triangle and pulse tables hold bytes, the PWM
    compare register holds a byte in every reachable state, whatever the
    selector value and whatever the noise table holds. *)
Theorem reachable_OCR1A_byte (c : Stmt * State) :
  byte_table sine -> byte_table triangle -> byte_table pulse ->
  reachable c ->
  0 <= OCR1A (snd c) < 256.
Proof.
  intros Hs Ht Hp Hreach. unfold reachable in Hreach.
  pattern c. eapply rtc_ind_r; [ | | exact Hreach]; cbn beta.
  - vm_compute. split; [discriminate | reflexivity].
  - intros c1 c2 _ Hstep IH.
    destruct Hstep as [pc s | pc env s s' H]; cbn [snd] in *.
    + by apply ISR_OCR1A_byte.
    + destruct (exec_stmt_frame _ _ _ _ H) as (_ & _ & ->). exact IH.
Qed.

(** *** Many ticks *)

Lemma ticks_phase_offset (n : nat) (s : State) :
  phase_offset (ticks n s) = phase_offset s.
Proof.
  revert s. induction n as [|n IH]; intros s; [reflexivity|].
  cbn [ticks]. rewrite IH. reflexivity.
Qed.

(** The sample of a tick is a function of the accumulator the tick leaves,
    the selector and the phase offset. *)
Lemma ISR_OCR1A_ext (s t : State) :
  syncPhaseAcc (ISR s) = syncPhaseAcc (ISR t) ->
  current_wavetable s = current_wavetable t ->
  phase_offset s = phase_offset t ->
  OCR1A (ISR s) = OCR1A (ISR t).
Proof. intros Ha Hw Hp. rewrite !ISR_OCR1A, Ha, Hw, Hp. reflexivity. Qed.

Lemma ticks_period (P n : nat) (s : State) :
  0 <= syncPhaseAcc s < 65536 ->
  (Z.of_nat P * phase_advance (range_high s) (syncPhaseInc s)) mod 65536 = 0 ->
  syncPhaseAcc (ticks (n + P) s) = syncPhaseAcc (ticks n s).
Proof.
  intros Ha HP. rewrite !ticks_syncPhaseAcc by exact Ha. unfold to_uint16.
  set (d := phase_advance (range_high s) (syncPhaseInc s)) in *.
  replace (syncPhaseAcc s + Z.of_nat (n + P) * d)
    with (syncPhaseAcc s + Z.of_nat n * d + Z.of_nat P * d) by lia.
  rewrite <- Zplus_mod_idemp_r, HP, Z.add_0_r. reflexivity.
Qed.

(** X4: with the control state left alone, if [P] effective increments add
    up to a multiple of 2^16 then the accumulator and the samples repeat
    every [P] ticks. *)
Theorem output_periodic (P n : nat) (s : State) :
  0 <= syncPhaseAcc s < 65536 ->
  (Z.of_nat P * phase_advance (range_high s) (syncPhaseInc s)) mod 65536 = 0 ->
  syncPhaseAcc (ticks (n + P) s) = syncPhaseAcc (ticks n s) /\
  OCR1A (ticks (S n + P) s) = OCR1A (ticks (S n) s).
Proof.
  intros Ha HP. split; [exact (ticks_period P n s Ha HP)|].
  change (S n + P)%nat with (S (n + P)). rewrite !ticks_S.
  apply ISR_OCR1A_ext.
  - rewrite <- !ticks_S. exact (ticks_period P (S n) s Ha HP).
  - destruct (ticks_frame (n + P) s) as (_ & _ & ->).
    destruct (ticks_frame n s) as (_ & _ & ->). reflexivity.
  - rewrite !ticks_phase_offset. reflexivity.
Qed.

(** X5: with the square selected, the sample of every tick is 0 while the
    accumulator the tick leaves is in the lower half of its range and 255
    while it is in the upper half. *)
Theorem square_half_cycle (n : nat) (s : State) :
  current_wavetable s = WAVETABLE_SQUARE ->
  0 <= syncPhaseAcc s < 65536 ->
  OCR1A (ticks (S n) s) =
  if to_uint16 (syncPhaseAcc s +
                Z.of_nat (S n) * phase_advance (range_high s) (syncPhaseInc s))
     <? 32768
  then 0 else 255.
Proof.
  intros Hw Ha. rewrite <- ticks_syncPhaseAcc by exact Ha.
  rewrite ticks_S, ISR_OCR1A.
  destruct (ticks_frame n s) as (_ & _ & ->). rewrite Hw. cbv zeta.
  change (WAVETABLE_SQUARE =? WAVETABLE_SINE) with false.
  change (WAVETABLE_SQUARE =? WAVETABLE_TRIANGLE) with false.
  change (WAVETABLE_SQUARE =? WAVETABLE_SAW) with false.
  change (WAVETABLE_SQUARE =? WAVETABLE_SQUARE) with true. cbv iota.
  pose proof (ISR_syncPhaseAcc_range (ticks n s)) as Hr.
  destruct (high_byte _ Hr) as [-> _].
  rewrite Z.shiftr_div_pow2 by lia. change (2 ^ 8) with 256.
  set (a := syncPhaseAcc (ISR (ticks n s))) in *.
  destruct (Z.ltb_spec a 32768) as [Hlt|Hge].
  - replace (a / 256 <? 128) with true; [reflexivity|].
    symmetry. apply Z.ltb_lt. apply Z.div_lt_upper_bound; lia.
  - replace (a / 256 <? 128) with false; [reflexivity|].
    symmetry. apply Z.ltb_ge.
    change 128 with (32768 / 256). apply Z.div_le_mono; lia.
Qed.

Lemma ticks_buffer_ok (n : nat) (s : State) :
  buffer_ok s -> buffer_ok (ticks n s).
Proof.
  revert s. induction n as [|n IH]; intros s Hok; [exact Hok|].
  cbn [ticks]. apply IH. exact Hok.
Qed.

(** X6: ticks, then a pass of [loop], then more ticks: the pass completes
    and the accumulator goes on from where it was, with the effective
    increment of the [syncPhaseInc] and [range_high] the pass published
    from its inputs; no tick is lost and nothing is reset. *)
Theorem accumulator_across_pass (n m : nat) (env : Env) (s : State) :
  0 <= syncPhaseAcc s < 65536 ->
  buffer_ok s ->
  exists s2,
    loop env (ticks n s) = Some s2 /\
    syncPhaseInc s2 =
      to_uint16 (to_uint16 (mapFreq (analogRead env CV_INPUT)) +
                 to_uint16 (finetune_offset (analogRead env OP_INPUT))) /\
    range_high s2 = (if digitalRead env 0 =? HIGH then 1 else 0) /\
    syncPhaseAcc (ticks m s2) =
    to_uint16 (syncPhaseAcc s +
               Z.of_nat n * phase_advance (range_high s) (syncPhaseInc s) +
               Z.of_nat m * phase_advance (range_high s2) (syncPhaseInc s2)).
Proof.
  intros Ha Hok.
  destruct (loop_defined env (ticks n s) (ticks_buffer_ok n s Hok))
    as (s2 & Hloop & _).
  exists s2. split; [exact Hloop|].
  destruct (loop_publishes _ _ _ Hloop) as (Hbf & Hft & Hinc & Hrh & Hacc & _).
  split; [rewrite Hinc, Hbf, Hft; reflexivity|]. split; [exact Hrh|].
  assert (Hr : 0 <= syncPhaseAcc s2 < 65536).
  { rewrite Hacc, ticks_syncPhaseAcc by exact Ha. apply to_uint16_range. }
  rewrite ticks_syncPhaseAcc by exact Hr.
  rewrite Hacc, ticks_syncPhaseAcc by exact Ha.
  unfold to_uint16. rewrite Zplus_mod_idemp_l. reflexivity.
Qed.

(** *** Ticks do not disturb the control loop *)

(** X7: a tick taken just before a pass of [loop] changes the outcome of
    the pass in [syncPhaseAcc] and [OCR1A] only: every global the control
    loop computes comes out the same. *)
Theorem tick_then_pass (env : Env) (s : State) :
  loop env (ISR s) =
  (fun s' => set_OCR1A (OCR1A (ISR s))
               (set_syncPhaseAcc (syncPhaseAcc (ISR s)) s')) <$> loop env s.
Proof.
  set (o := OCR1A (ISR s)). set (a := syncPhaseAcc (ISR s)).
  replace (ISR s) with (set_OCR1A o (set_syncPhaseAcc a s)) by reflexivity.
  clearbody o a. destruct s. unfold loop.
  cbn [exec_stmt mbind option_bind fmap option_fmap option_map
       set_OCR1A set_syncPhaseAcc set_baseFreq set_buffered_vals set_buff_step
       set_acc set_current_wavetable set_finetune set_syncPhaseInc
       set_range_high syncPhaseAcc syncPhaseInc baseFreq syncOffset finetune
       current_wavetable pitch_offset phase_offset range_high acc a1_level
       buffered_vals buff_step OCR1A].
  destruct (_ && _); [|reflexivity].
  cbn [exec_stmt mbind option_bind fmap option_fmap option_map
       set_OCR1A set_syncPhaseAcc set_baseFreq set_buffered_vals set_buff_step
       set_acc set_current_wavetable set_finetune set_syncPhaseInc
       set_range_high syncPhaseAcc syncPhaseInc baseFreq syncOffset finetune
       current_wavetable pitch_offset phase_offset range_high acc a1_level
       buffered_vals buff_step OCR1A].
  destruct (_ =? BUFF_LENGTH); [|reflexivity].
  destruct (sum_buffer _ _ _ _); reflexivity.
Qed.

(** *** The fine-tune sum outside the low wrap *)

(** X8: when [baseFreq + (r >> 3)] is at least 64 and the corrected sum
    still fits in 16 bits, the published increment is exactly
    [baseFreq + (r >> 3) - 64]. *)
Theorem finetune_exact (env : Env) (s : State) :
  let r := analogRead env OP_INPUT in
  let base := to_uint16 (mapFreq (analogRead env CV_INPUT)) in
  buffer_ok s ->
  0 <= r <= 1023 ->
  64 <= base + Z.shiftr r 3 < 65600 ->
  exists s', loop env s = Some s' /\
    syncPhaseInc s' = base + Z.shiftr r 3 - 64.
Proof.
  intros r base Hok Hr Hfit.
  destruct (loop_defined env s Hok) as (s' & Hrun & _).
  exists s'. split; [exact Hrun|].
  destruct (loop_publishes env s s' Hrun) as (Hbf & Hft & Hinc & _).
  fold base in Hbf. fold r in Hft.
  rewrite Hinc, Hft, Hbf. unfold finetune_offset, to_uint16.
  rewrite Zplus_mod_idemp_r. rewrite Z.mod_small by lia. lia.
Qed.

(** X9: at the top of the range the sum wraps the other way: when
    [baseFreq + (r >> 3)] reaches 65600 the published increment is
    [baseFreq + (r >> 3) - 64 - 65536], at most 62. *)
Theorem finetune_wraps_high (env : Env) (s : State) :
  let r := analogRead env OP_INPUT in
  let base := to_uint16 (mapFreq (analogRead env CV_INPUT)) in
  buffer_ok s ->
  0 <= r <= 1023 ->
  65600 <= base + Z.shiftr r 3 ->
  exists s', loop env s = Some s' /\
    syncPhaseInc s' = base + Z.shiftr r 3 - 64 - 65536 /\
    0 <= syncPhaseInc s' <= 62.
Proof.
  intros r base Hok Hr Hbig.
  destruct (loop_defined env s Hok) as (s' & Hrun & _).
  exists s'. split; [exact Hrun|].
  destruct (loop_publishes env s s' Hrun) as (Hbf & Hft & Hinc & _).
  fold base in Hbf. fold r in Hft.
  assert (Hb : 0 <= base < 65536) by apply to_uint16_range.
  assert (Hq : Z.shiftr r 3 <= 127).
  { rewrite Z.shiftr_div_pow2 by lia. change (2 ^ 3) with 8.
    change 127 with (1023 / 8). apply Z.div_le_mono; lia. }
  assert (Hval : syncPhaseInc s' = base + Z.shiftr r 3 - 64 - 65536).
  { rewrite Hinc, Hft, Hbf. unfold finetune_offset, to_uint16.
    rewrite Zplus_mod_idemp_r.
    replace (base + (-64 + Z.shiftr r 3))
      with (base + Z.shiftr r 3 - 64 - 65536 + 1 * 65536) by lia.
    rewrite Z.mod_add by lia. apply Z.mod_small. lia. }
  rewrite Hval. lia.
Qed.

(** *** The noise branch *)

(** X10: a sample written by the [default] branch is even: the shift of
    line 174 clears bit 0, so the noise uses seven bits of the output. *)
Theorem noise_sample_even (s : State) :
  ~ In (current_wavetable s)
       [WAVETABLE_SINE; WAVETABLE_TRIANGLE; WAVETABLE_SAW;
        WAVETABLE_SQUARE; WAVETABLE_PULSE] ->
  OCR1A (ISR s) mod 2 = 0.
Proof.
  intros Hw. rewrite ISR_OCR1A. cbv zeta.
  destruct (default_case _ Hw) as (-> & -> & -> & -> & ->).
  unfold to_uint8 at 1. rewrite Z.shiftl_mul_pow2 by lia.
  change (2 ^ 1) with 2. change 256 with (128 * 2).
  rewrite Z.mul_mod_distr_r by lia. apply Z.mod_mul. lia.
Qed.

(** *** The smoothing buffer from any starting contents *)

(** One more pass from a state whose first slots hold the pending
    readings; at a multiple of four the array is exactly the last four. *)
Lemma window_step (rs : list Z) (env : Env) (s : State) :
  window_inv rs s ->
  Forall (fun x => 0 <= x < 256) (rs ++ [selector_reading env]) ->
  exists s', loop env s = Some s' /\
    window_inv (rs ++ [selector_reading env]) s' /\
    if (length (rs ++ [selector_reading env]) mod 4 =? 0)%nat
    then current_wavetable s' =
           Zsum (last_n 4 (rs ++ [selector_reading env])) / 4 /\
         buffered_vals s' = last_n 4 (rs ++ [selector_reading env])
    else current_wavetable s' = current_wavetable s.
Proof.
  intros (b0 & b1 & b2 & b3 & Hb & Hk & Htake) Hbytes.
  set (m := selector_reading env) in *.
  assert (Hm : 0 <= m < 256).
  { pose proof Hbytes as Hall. apply Forall_app in Hall as [_ Hm].
    exact (Forall_inv Hm). }
  pose proof (pending_length rs) as Hlen.
  pose proof (Nat.mod_upper_bound (length rs) 4 ltac:(lia)) as Hlt.
  destruct (loop_buffer env s b0 b1 b2 b3 Hb ltac:(lia))
    as (s' & Hrun & Hvals & Hrest).
  fold (selector_reading env) in Hvals, Hrest. fold m in Hvals, Hrest.
  rewrite (to_uint16_small m) in Hvals, Hrest by lia.
  exists s'. split; [exact Hrun|].
  pose proof (pending_snoc rs m) as Hsnoc.
  destruct (length (rs ++ [m]) mod 4 =? 0)%nat eqn:E.
  - destruct Hsnoc as (Hp & Hlast & H3).
    rewrite H3 in Hk, Htake. rewrite Hk in Hvals, Hrest.
    cbn in Hvals, Htake. change (Z.of_nat 3 =? 3) with true in Hrest.
    destruct Hrest as (Hstep & _ & Hcw).
    split.
    + exists b0, b1, b2, m. rewrite Hp. by repeat split.
    + rewrite Hcw, Hvals, Hlast, <- Htake. split; [|reflexivity].
      assert (Hall : Forall (fun x => 0 <= x < 256) [b0; b1; b2; m]).
      { change [b0; b1; b2; m] with ([b0; b1; b2] ++ [m]).
        rewrite Htake, <- Hlast. unfold last_n. by apply Forall_drop. }
      inversion Hall as [|? ? B0 Hall1]; subst.
      inversion Hall1 as [|? ? B1 Hall2]; subst.
      inversion Hall2 as [|? ? B2 _]; subst.
      by apply average_of_bytes.
  - assert (Hk3 : length (pending rs) <> 3%nat).
    { intros H3. rewrite length_app in E. cbn [length] in E.
      destruct (mod4_succ (length rs)) as [[_ H0]|[Hn _]]; [|lia].
      rewrite H0 in E. discriminate. }
    assert (Hne : (buff_step s =? 3) = false) by (apply Z.eqb_neq; lia).
    rewrite Hne in Hrest. destruct Hrest as (Hstep & _ & Hcw).
    split; [|exact Hcw].
    rewrite Hk in Hvals, Hstep. rewrite Nat2Z.id in Hvals.
    remember (length (pending rs)) as k eqn:Heqk.
    assert (Hnew : length (pending (rs ++ [m])) = S k)
      by (rewrite Hsnoc, length_app, <- Heqk; cbn [length]; lia).
    assert (k = 0 \/ k = 1 \/ k = 2)%nat as [->|[->| ->]] by lia;
      cbn in Hvals, Htake; eexists _, _, _, _; rewrite Hnew, Hsnoc, <- Htake;
      (split; [exact Hvals|]); (split; [rewrite Hstep; reflexivity|]);
      reflexivity.
Qed.

Lemma run_loop_window (envs : list Env) (s0 : State) :
  window_inv [] s0 ->
  Forall (fun x => 0 <= x < 256) (map selector_reading envs) ->
  exists s, run_loop envs s0 = Some s /\
            window_inv (map selector_reading envs) s.
Proof.
  intros Hinit.
  induction envs as [|env envs IH] using rev_ind; intros Hbytes.
  - exists s0. split; [reflexivity | exact Hinit].
  - rewrite map_app in Hbytes |- *. cbn [map] in Hbytes |- *.
    destruct IH as (s & Hrun & Hinv).
    { by apply Forall_app in Hbytes as [? _]. }
    destruct (window_step _ env s Hinv Hbytes) as (s' & Hloop & Hinv' & _).
    exists s'. split; [|exact Hinv'].
    rewrite run_loop_snoc, Hrun. exact Hloop.
Qed.

(** X11: [audioOn] clears only the first two of the four slots (its
    [memset] counts bytes), but what the other two hold never shows: from
    [setup] applied to any four-slot state, the pass that takes reading
    4, 8, ... publishes the rounded-down average of the last four mapped
    readings and leaves exactly those four in the array; any other pass
    leaves [current_wavetable] alone. *)
Theorem smoothing_ignores_stale_slots
    (s0 : State) (b0 b1 b2 b3 : Z) (envs : list Env) (env : Env) :
  let readings := map selector_reading (envs ++ [env]) in
  buffered_vals s0 = [b0; b1; b2; b3] ->
  Forall (fun x => 0 <= x < 256) readings ->
  buffered_vals (setup s0) = [0; 0; b2; b3] /\
  exists s s',
    run_loop envs (setup s0) = Some s /\
    loop env s = Some s' /\
    if (length readings mod 4 =? 0)%nat
    then current_wavetable s' = Zsum (last_n 4 readings) / 4 /\
         buffered_vals s' = last_n 4 readings
    else current_wavetable s' = current_wavetable s.
Proof.
  intros readings Hb Hbytes. subst readings.
  assert (Hset : buffered_vals (setup s0) = [0; 0; b2; b3]).
  { unfold setup, audioOn. cbn [buffered_vals set_buffered_vals set_buff_step
      set_syncPhaseAcc set_OCR1A]. rewrite Hb. reflexivity. }
  split; [exact Hset|].
  rewrite map_app in Hbytes |- *. cbn [map] in Hbytes |- *.
  destruct (run_loop_window envs (setup s0)) as (s & Hrun & Hinv).
  { exists 0, 0, b2, b3. by repeat split. }
  { by apply Forall_app in Hbytes as [? _]. }
  destruct (window_step _ env s Hinv Hbytes) as (s' & Hloop & _ & Hpub).
  exists s, s'. split; [exact Hrun|]. split; [exact Hloop | exact Hpub].
Qed.

(** The average of four values lies between any bounds on the four. *)
Lemma Zsum_average_bounds (l : list Z) (lo hi : Z) :
  length l = 4%nat ->
  Forall (fun x => lo <= x <= hi) l ->
  lo <= Zsum l / 4 <= hi.
Proof.
  intros Hlen Hall.
  destruct l as [|x0 [|x1 [|x2 [|x3 [|x4 l]]]]]; try discriminate.
  inversion Hall as [|? ? B0 Hall1]; subst.
  inversion Hall1 as [|? ? B1 Hall2]; subst.
  inversion Hall2 as [|? ? B2 Hall3]; subst.
  inversion Hall3 as [|? ? B3 _]; subst.
  cbn [Zsum foldr]. split.
  - apply Z.div_le_lower_bound; lia.
  - apply Z.div_le_upper_bound; lia.
Qed.

(** X12: the published selector never leaves the span of the four readings
    it averages: if the last four mapped readings all lie between [lo] and
    [hi], so does [current_wavetable] after the pass that takes reading
    4, 8, ...; four equal readings publish that very value. *)
Theorem smoothed_within_readings (envs : list Env) (env : Env) (lo hi : Z) :
  let readings := map selector_reading (envs ++ [env]) in
  Forall (fun x => 0 <= x < 256) readings ->
  (length readings mod 4 = 0)%nat ->
  Forall (fun x => lo <= x <= hi) (last_n 4 readings) ->
  exists s', run_loop (envs ++ [env]) init = Some s' /\
             lo <= current_wavetable s' <= hi.
Proof.
  intros readings Hbytes Hmod Hspan. subst readings.
  rewrite map_app in Hbytes, Hmod, Hspan. cbn [map] in Hbytes, Hmod, Hspan.
  destruct (run_loop_smoothing envs) as (s & Hrun & Hinv).
  { by apply Forall_app in Hbytes as [? _]. }
  destruct (smoothing_step _ env s Hinv Hbytes) as (s' & Hloop & _ & Hpub).
  exists s'. split; [rewrite run_loop_snoc, Hrun; exact Hloop|].
  apply Nat.eqb_eq in Hmod. rewrite Hmod in Hpub. destruct Hpub as (-> & _).
  apply Zsum_average_bounds; [|exact Hspan].
  apply Nat.eqb_eq in Hmod. unfold last_n. rewrite length_drop.
  rewrite length_app in Hmod |- *. cbn [length] in Hmod |- *.
  pose proof (Nat.div_mod_eq (length (map selector_reading envs) + 1) 4).
  lia.
Qed.

(** *** The effective increment *)

(** X13: in every reachable state the effective increment of the next tick
    is less than half a cycle (at most 32767), and at most 4095 in the LFO
    range: a cycle of the output never takes fewer than two ticks. *)
Theorem advance_below_half_cycle (c : Stmt * State) :
  reachable c ->
  let d := phase_advance (range_high (snd c)) (syncPhaseInc (snd c)) in
  0 <= d <= 32767 /\ (range_high (snd c) <> 0 -> d <= 4095).
Proof.
  intros Hreach d. subst d.
  destruct (rtc_step_state_wf _ _ Hreach init_state_wf) as (_ & Hi & _).
  unfold phase_advance. rewrite !Z.shiftr_div_pow2 by lia.
  change (2 ^ 1) with 2. change (2 ^ 4) with 16.
  assert (0 <= syncPhaseInc (snd c) / 2 <= 32767).
  { split; [apply Z.div_pos; lia|].
    change 32767 with (65535 / 2). apply Z.div_le_mono; lia. }
  assert (0 <= syncPhaseInc (snd c) / 16 <= 4095).
  { split; [apply Z.div_pos; lia|].
    change 4095 with (65535 / 16). apply Z.div_le_mono; lia. }
  destruct (Z.eqb_spec (range_high (snd c)) 0); split; lia.
Qed.

End Firmware.

(** ** The theorems at concrete inputs *)

(** C1 at increment 1000, 200 ticks, audio range. *)
Lemma phase_accumulator_after_ticks_witness :
  let s := set_syncPhaseInc 1000 init in
  syncPhaseAcc s = 0 /\ syncPhaseInc s = 1000 /\ range_high s = 0 /\
  syncPhaseAcc (ticks demo_sine demo_triangle demo_pulse demo_noise 200 s) =
  (Z.of_nat 200 * Z.shiftr 1000 1) mod 65536.
Proof.
  cbv zeta. do 3 (split; [reflexivity|]).
  exact (proj1 (phase_accumulator_after_ticks
                  demo_sine demo_triangle demo_pulse demo_noise
                  1000 200 (set_syncPhaseInc 1000 init) eq_refl eq_refl)
               eq_refl).
Defined.

(** C2 as the claim has it fails at increment 2: the audio range advances
    by 1 per tick and the LFO range by 0, which is not an eighth of 1. *)
Lemma range_ratio_not_exact :
  let audio := set_range_high 0 (set_syncPhaseInc 2 init) in
  let lfo := set_range_high 1 (set_syncPhaseInc 2 init) in
  syncPhaseAcc (ISR demo_sine demo_triangle demo_pulse demo_noise audio) = 1 /\
  syncPhaseAcc (ISR demo_sine demo_triangle demo_pulse demo_noise lfo) = 0 /\
  8 * phase_advance 1 2 <> phase_advance 0 2.
Proof. vm_compute. repeat split. discriminate. Qed.

(** C2 as amended, at increment 1000 in the LFO range. *)
Lemma range_ratio_floor_witness :
  1 <> 0 /\
  phase_advance 1 1000 = phase_advance 0 1000 / 8 /\
  (8 * phase_advance 1 1000 = phase_advance 0 1000 <-> 1000 mod 16 < 2).
Proof.
  split; [discriminate|]. apply (range_ratio_floor 1 1000). discriminate.
Defined.

(** C3 at the unrecognised selector value 200. *)
Lemma noise_fallback_witness :
  let s := set_current_wavetable 200 (set_syncPhaseInc 40000 init) in
  let step := Z.shiftr (syncPhaseAcc (ISR demo_sine demo_triangle demo_pulse
                                          demo_noise s)) 8 in
  0 <= step <= 255 /\
  OCR1A (ISR demo_sine demo_triangle demo_pulse demo_noise s) =
  (demo_noise ((step + phase_offset s) mod 256) * 2) mod 256.
Proof.
  apply (noise_fallback demo_sine demo_triangle demo_pulse demo_noise
           (set_current_wavetable 200 (set_syncPhaseInc 40000 init))).
  vm_compute. intros H.
  repeat (destruct H as [H|H]; [discriminate H|]). exact H.
Defined.

(** C5 at increment 40000 in the audio range: from accumulator 0 the tick
    leaves step 78 and writes 0; from accumulator 20000 it leaves step 156
    and writes 255. *)
Lemma square_output_witness :
  let lo := set_current_wavetable WAVETABLE_SQUARE (set_syncPhaseInc 40000 init) in
  let hi := set_syncPhaseAcc 20000 lo in
  current_wavetable lo = WAVETABLE_SQUARE /\
  current_wavetable hi = WAVETABLE_SQUARE /\
  OCR1A (ISR demo_sine demo_triangle demo_pulse demo_noise lo) = 0 /\
  OCR1A (ISR demo_sine demo_triangle demo_pulse demo_noise hi) = 255.
Proof.
  intros lo hi. split; [reflexivity|]. split; [reflexivity|]. split.
  - refine (proj1 (proj2 (proj2
      (square_output demo_sine demo_triangle demo_pulse demo_noise lo eq_refl))) _).
    vm_compute. split; discriminate.
  - refine (proj1 (proj2 (proj2 (proj2
      (square_output demo_sine demo_triangle demo_pulse demo_noise hi eq_refl)))) _).
    vm_compute. split; discriminate.
Defined.

(** C4 on eight passes: the eighth publishes the average of readings five
    to eight. *)
Lemma smoothing_every_fourth_witness :
  let envs := map (fun w => demo_env 300 w 512 HIGH)
                  [0; 200; 400; 600; 800; 1000; 1023] in
  let env := demo_env 300 500 512 HIGH in
  exists s s',
    run_loop demo_mapFreq demo_mapOsc envs init = Some s /\
    loop demo_mapFreq demo_mapOsc env s = Some s' /\
    current_wavetable s' = Zsum [4; 5; 5; 2] / 4.
Proof.
  intros envs env.
  destruct (smoothing_every_fourth demo_mapFreq demo_mapOsc envs env)
    as (s & s' & Hrun & Hloop & _ & Hpub).
  - vm_compute. repeat constructor; discriminate.
  - exists s, s'. split; [exact Hrun|]. split; [exact Hloop|].
    exact (proj1 Hpub).
Defined.

(** C6 as the claim has it fails at increment 2 in the audio range: the
    effective increment is 1, positive, and the samples of the first 256
    ticks do not climb from 0 to 255; the first three are all 0. *)
Lemma saw_not_a_full_ramp :
  let s := set_current_wavetable WAVETABLE_SAW (set_syncPhaseInc 2 init) in
  0 < phase_advance (range_high s) (syncPhaseInc s) /\
  take 3 (samples demo_sine demo_triangle demo_pulse demo_noise 256 s) = [0; 0; 0] /\
  samples demo_sine demo_triangle demo_pulse demo_noise 256 s <> seqZ 0 256.
Proof.
  cbv zeta. split; [reflexivity|]. split; [vm_compute; reflexivity|].
  intros H. apply (f_equal (fun l => l !! 1%nat)) in H.
  vm_compute in H. discriminate H.
Qed.

(** C6 as amended, at increment 512 in the audio range: the effective
    increment is 256 and the samples count up by one per tick. *)
Lemma saw_output_witness :
  let s := set_current_wavetable WAVETABLE_SAW (set_syncPhaseInc 512 init) in
  current_wavetable s = WAVETABLE_SAW /\
  0 <= syncPhaseAcc s < 65536 /\
  forall n, OCR1A (ticks demo_sine demo_triangle demo_pulse demo_noise (S n) s) =
            Z.of_nat (S n) mod 256.
Proof.
  cbv zeta. split; [reflexivity|]. split; [vm_compute; split; [discriminate | reflexivity]|].
  refine (proj2 (proj2 (saw_output demo_sine demo_triangle demo_pulse demo_noise
            (set_current_wavetable WAVETABLE_SAW (set_syncPhaseInc 512 init))
            eq_refl _)) eq_refl eq_refl).
  vm_compute. split; [discriminate | reflexivity].
Defined.

(** C7 at the midpoint reading 512. *)
Lemma finetune_centered_witness :
  let env := demo_env 300 700 512 HIGH in
  buffer_ok init /\ 0 <= analogRead env OP_INPUT <= 1023 /\
  exists s', loop demo_mapFreq demo_mapOsc env init = Some s' /\
             finetune_offset 512 = 0 /\
             finetune s' = finetune_offset 512 mod 65536 /\
             syncPhaseInc s' = (baseFreq s' + finetune_offset 512) mod 65536.
Proof.
  intros env.
  assert (Hok : buffer_ok init)
    by (split; [vm_compute; split; [discriminate | reflexivity] | reflexivity]).
  assert (Hr : 0 <= analogRead env OP_INPUT <= 1023)
    by (vm_compute; split; discriminate).
  split; [exact Hok|]. split; [exact Hr|].
  destruct (finetune_centered demo_mapFreq demo_mapOsc env init Hok Hr)
    as (s' & Hrun & _ & _ & _ & _ & _ & Hft & Hinc).
  exists s'. split; [exact Hrun|]. split; [reflexivity|].
  split; [exact Hft | exact Hinc].
Defined.

(** C8 on a pass that switches to the LFO range with the accumulator at
    12345. *)
Lemma loop_preserves_syncPhaseAcc_witness :
  let env := demo_env 300 700 512 HIGH in
  let s := set_syncPhaseAcc 12345 init in
  buffer_ok s /\ range_high s = 0 /\
  exists s', loop demo_mapFreq demo_mapOsc env s = Some s' /\
             syncPhaseAcc s' = 12345 /\ range_high s' = 1.
Proof.
  intros env s.
  assert (Hok : buffer_ok s)
    by (split; [vm_compute; split; [discriminate | reflexivity] | reflexivity]).
  split; [exact Hok|]. split; [reflexivity|].
  destruct (loop_preserves_syncPhaseAcc demo_mapFreq demo_mapOsc env s Hok)
    as (s' & Hrun & Hacc & Hrh).
  exists s'. split; [exact Hrun|]. split; [exact Hacc | exact Hrh].
Defined.

(** C9 in the state reached by the first statement of [loop] followed by
    a tick. *)
Lemma phase_offset_always_zero_witness :
  let env := demo_env 300 700 512 HIGH in
  let s := ISR demo_sine demo_triangle demo_pulse demo_noise
               (set_baseFreq (to_uint16 (demo_mapFreq 300)) init) in
  reachable demo_sine demo_triangle demo_pulse demo_noise
            demo_mapFreq demo_mapOsc (L117, s) /\
  phase_offset s = 0.
Proof.
  intros env s.
  assert (Hreach : reachable demo_sine demo_triangle demo_pulse demo_noise
                             demo_mapFreq demo_mapOsc (L117, s)).
  { unfold reachable. eapply rtc_l.
    - apply (step_stmt _ _ _ _ _ _ L103 env init). reflexivity.
    - apply rtc_once. apply step_isr. }
  split; [exact Hreach|].
  exact (proj1 (phase_offset_always_zero demo_sine demo_triangle demo_pulse
                  demo_noise demo_mapFreq demo_mapOsc (L117, s) Hreach)).
Defined.

(** C10 with base increment 16 and fine-tune reading 100. *)
Lemma finetune_wraps_witness :
  let env := demo_env 0 700 100 LOW in
  buffer_ok init /\
  0 <= analogRead env OP_INPUT <= 1023 /\
  to_uint16 (demo_mapFreq (analogRead env CV_INPUT)) +
    Z.shiftr (analogRead env OP_INPUT) 3 < 64 /\
  exists s', loop demo_mapFreq demo_mapOsc env init = Some s' /\
             syncPhaseInc s' = 65500.
Proof.
  intros env.
  assert (Hok : buffer_ok init)
    by (split; [vm_compute; split; [discriminate | reflexivity] | reflexivity]).
  assert (Hr : 0 <= analogRead env OP_INPUT <= 1023)
    by (vm_compute; split; discriminate).
  assert (Hsmall : to_uint16 (demo_mapFreq (analogRead env CV_INPUT)) +
                   Z.shiftr (analogRead env OP_INPUT) 3 < 64)
    by reflexivity.
  split; [exact Hok|]. split; [exact Hr|]. split; [exact Hsmall|].
  destruct (finetune_wraps demo_mapFreq demo_mapOsc env init Hok Hr Hsmall)
    as (s' & Hrun & _ & _ & Hinc & _).
  exists s'. split; [exact Hrun | exact Hinc].
Defined.

(** X1 in the state reached by the first two statements of [loop]. *)
Lemma loop_never_overruns_buffer_witness :
  let env := demo_env 300 700 512 HIGH in
  exists s s',
    reachable demo_sine demo_triangle demo_pulse demo_noise
              demo_mapFreq demo_mapOsc (L118, s) /\
    exec_stmt demo_mapFreq demo_mapOsc L118 env s = Some s'.
Proof.
  intros env.
  assert (Hreach : reachable demo_sine demo_triangle demo_pulse demo_noise
                     demo_mapFreq demo_mapOsc
                     (L118,
                      set_buffered_vals [4; 0; 0; 0]
                        (set_buff_step 1
                           (set_baseFreq (to_uint16 (demo_mapFreq 300)) init)))).
  { unfold reachable. eapply rtc_l.
    - apply (step_stmt _ _ _ _ _ _ L103 env init). reflexivity.
    - apply rtc_once.
      apply (step_stmt _ _ _ _ _ _ L117 env). reflexivity. }
  destruct (loop_never_overruns_buffer demo_sine demo_triangle demo_pulse
              demo_noise demo_mapFreq demo_mapOsc _ env Hreach) as (s' & Hs').
  eexists _, s'. split; [exact Hreach | exact Hs'].
Defined.

(** X2 and X3 in the state reached by the first statement of [loop]
    followed by a tick. *)
Lemma reachable_state_wf_witness :
  state_wf (ISR demo_sine demo_triangle demo_pulse demo_noise
                (set_baseFreq (to_uint16 (demo_mapFreq 300)) init)).
Proof.
  apply (reachable_state_wf demo_sine demo_triangle demo_pulse demo_noise
           demo_mapFreq demo_mapOsc (L117, _)).
  unfold reachable. eapply rtc_l.
  - apply (step_stmt _ _ _ _ _ _ L103 (demo_env 300 700 512 HIGH) init).
    reflexivity.
  - apply rtc_once. apply step_isr.
Defined.

Lemma demo_tables_bytes :
  byte_table demo_sine /\ byte_table demo_triangle /\ byte_table demo_pulse.
Proof.
  unfold byte_table, demo_sine, demo_triangle, demo_pulse.
  repeat split; try (apply Z.mod_pos_bound; lia);
    try (destruct (Z.ltb_spec i 128); lia);
    try (destruct (Z.ltb_spec i 64); lia).
Defined.

Lemma reachable_OCR1A_byte_witness :
  0 <= OCR1A (ISR demo_sine demo_triangle demo_pulse demo_noise
                  (set_baseFreq (to_uint16 (demo_mapFreq 300)) init)) < 256.
Proof.
  apply (reachable_OCR1A_byte demo_sine demo_triangle demo_pulse demo_noise
           demo_mapFreq demo_mapOsc (L117, _)).
  - apply demo_tables_bytes.
  - apply demo_tables_bytes.
  - apply demo_tables_bytes.
  - unfold reachable. eapply rtc_l.
    + apply (step_stmt _ _ _ _ _ _ L103 (demo_env 300 700 512 HIGH) init).
      reflexivity.
    + apply rtc_once. apply step_isr.
Defined.

(** X4 with effective increment 256: the period is 256 ticks. *)
Lemma output_periodic_witness :
  let s := set_syncPhaseInc 512 init in
  syncPhaseAcc (ticks demo_sine demo_triangle demo_pulse demo_noise (5 + 256) s) =
  syncPhaseAcc (ticks demo_sine demo_triangle demo_pulse demo_noise 5 s) /\
  OCR1A (ticks demo_sine demo_triangle demo_pulse demo_noise (6 + 256) s) =
  OCR1A (ticks demo_sine demo_triangle demo_pulse demo_noise 6 s).
Proof.
  intros s.
  apply (output_periodic demo_sine demo_triangle demo_pulse demo_noise 256 5 s).
  - vm_compute. split; [discriminate | reflexivity].
  - reflexivity.
Defined.

(** X5 at increment 40000 in the audio range, third tick. *)
Lemma square_half_cycle_witness :
  let s := set_current_wavetable WAVETABLE_SQUARE (set_syncPhaseInc 40000 init) in
  OCR1A (ticks demo_sine demo_triangle demo_pulse demo_noise 3 s) = 255.
Proof.
  intros s.
  rewrite (square_half_cycle demo_sine demo_triangle demo_pulse demo_noise 2 s).
  - reflexivity.
  - reflexivity.
  - vm_compute. split; [discriminate | reflexivity].
Defined.

(** X6: 100 ticks in the audio range, a pass that switches to the LFO
    range, 100 more ticks. *)
Lemma accumulator_across_pass_witness :
  let env := demo_env 300 700 512 HIGH in
  let s := set_syncPhaseInc 2416 init in
  exists s2,
    loop demo_mapFreq demo_mapOsc env
         (ticks demo_sine demo_triangle demo_pulse demo_noise 100 s) = Some s2 /\
    syncPhaseAcc (ticks demo_sine demo_triangle demo_pulse demo_noise 100 s2) =
    to_uint16 (0 + 100 * 1208 + 100 * 151).
Proof.
  intros env s.
  destruct (accumulator_across_pass demo_sine demo_triangle demo_pulse demo_noise
              demo_mapFreq demo_mapOsc 100 100 env s)
    as (s2 & Hloop & Hinc & Hrh & Hacc).
  - vm_compute. split; [discriminate | reflexivity].
  - split; [vm_compute; split; [discriminate | reflexivity] | reflexivity].
  - exists s2. split; [exact Hloop|].
    rewrite Hacc, Hinc, Hrh. reflexivity.
Defined.

(** X8 with base increment 2416 and the midpoint reading. *)
Lemma finetune_exact_witness :
  let env := demo_env 300 700 512 HIGH in
  exists s', loop demo_mapFreq demo_mapOsc env init = Some s' /\
             syncPhaseInc s' = 2416.
Proof.
  intros env.
  apply (finetune_exact demo_mapFreq demo_mapOsc env init).
  - split; [vm_compute; split; [discriminate | reflexivity] | reflexivity].
  - vm_compute. split; discriminate.
  - vm_compute. split; [discriminate | reflexivity].
Defined.

(** X9 with base increment 65535 and the highest fine-tune reading. *)
Lemma finetune_wraps_high_witness :
  let env := demo_env 1023 700 1023 HIGH in
  exists s', loop demo_mapFreq_high demo_mapOsc env init = Some s' /\
             syncPhaseInc s' = 62.
Proof.
  intros env.
  destruct (finetune_wraps_high demo_mapFreq_high demo_mapOsc env init)
    as (s' & Hrun & Hinc & _).
  - split; [vm_compute; split; [discriminate | reflexivity] | reflexivity].
  - vm_compute. split; discriminate.
  - vm_compute. discriminate.
  - exists s'. split; [exact Hrun | exact Hinc].
Defined.

(** X10 at the noise selector value 5. *)
Lemma noise_sample_even_witness :
  OCR1A (ISR demo_sine demo_triangle demo_pulse demo_noise
             (set_current_wavetable WAVETABLE_NOISE (set_syncPhaseInc 40000 init)))
    mod 2 = 0.
Proof.
  apply (noise_sample_even demo_sine demo_triangle demo_pulse demo_noise).
  vm_compute. intros H.
  repeat (destruct H as [H|H]; [discriminate H|]). exact H.
Defined.

(** X11 from a state with stale values in all four slots. *)
Lemma smoothing_ignores_stale_slots_witness :
  let s0 := set_buffered_vals [900; 901; 902; 903] power_on in
  let envs := map (fun w => demo_env 300 w 512 HIGH) [800; 1000; 1023] in
  let env := demo_env 300 500 512 HIGH in
  buffered_vals (setup s0) = [0; 0; 902; 903] /\
  exists s s',
    run_loop demo_mapFreq demo_mapOsc envs (setup s0) = Some s /\
    loop demo_mapFreq demo_mapOsc env s = Some s' /\
    current_wavetable s' = 4 /\ buffered_vals s' = [4; 5; 5; 2].
Proof.
  intros s0 envs env.
  destruct (smoothing_ignores_stale_slots demo_mapFreq demo_mapOsc
              s0 900 901 902 903 envs env)
    as (Hset & s & s' & Hrun & Hloop & Hpub).
  - reflexivity.
  - vm_compute. repeat constructor; discriminate.
  - split; [exact Hset|]. exists s, s'.
    split; [exact Hrun|]. split; [exact Hloop | exact Hpub].
Defined.

(** X12 on four passes that all read selector value 3. *)
Lemma smoothed_within_readings_witness :
  let envs := map (fun w => demo_env 300 w 512 HIGH) [520; 600; 680] in
  let env := demo_env 300 560 512 HIGH in
  exists s', run_loop demo_mapFreq demo_mapOsc (envs ++ [env]) init = Some s' /\
             3 <= current_wavetable s' <= 3.
Proof.
  intros envs env.
  apply (smoothed_within_readings demo_mapFreq demo_mapOsc envs env 3 3).
  - vm_compute. repeat constructor; discriminate.
  - reflexivity.
  - vm_compute. repeat constructor; discriminate.
Defined.

(** X13 in the state after one pass from [init]. *)
Lemma advance_below_half_cycle_witness :
  0 <= phase_advance 1 2416 <= 32767 /\ (1 <> 0 -> phase_advance 1 2416 <= 4095).
Proof.
  assert (Hreach : reachable demo_sine demo_triangle demo_pulse demo_noise
                     demo_mapFreq demo_mapOsc
                     (L103,
                      set_range_high 1
                        (set_syncPhaseInc 2416
                           (set_finetune 0
                              (set_buffered_vals [4; 0; 0; 0]
                                 (set_buff_step 1
                                    (set_baseFreq 2416 init))))))).
  { unfold reachable.
    pose (env := demo_env 300 700 512 HIGH).
    eapply rtc_l; [apply (step_stmt _ _ _ _ _ _ L103 env); reflexivity|].
    eapply rtc_l; [apply (step_stmt _ _ _ _ _ _ L117 env); reflexivity|].
    eapply rtc_l; [apply (step_stmt _ _ _ _ _ _ L118 env); reflexivity|].
    eapply rtc_l; [apply (step_stmt _ _ _ _ _ _ L127 env); reflexivity|].
    eapply rtc_l; [apply (step_stmt _ _ _ _ _ _ L130 env); reflexivity|].
    apply rtc_once. apply (step_stmt _ _ _ _ _ _ L133 env). reflexivity. }
  exact (advance_below_half_cycle demo_sine demo_triangle demo_pulse demo_noise
           demo_mapFreq demo_mapOsc _ Hreach).
Defined.
